(** * mongo-to-s3: the export pipeline and its publication step

    A shallow embedding of [config/config.go] (rows, field specifications,
    the per-row transforms) and of the parts of [main.go] that name the
    shard objects, run the per-row chain, reconcile the row counters and
    publish the manifest. *)

From Stdlib Require Import ZArith Lia Ascii String.
From stdpp Require Import base option list sorting gmap strings pretty.

Local Open Scope Z_scope.

(** ** Go values held in a row *)

(** The dynamic types an [interface{}] takes in a decoded document.  A Go map
    is ranged over in an unspecified order; the embedding fixes that order in
    the input: a nested map is the list of its entries in the order the
    [range] statement visits them.  Maps and slices are the non-nil ones a
    decoder builds. *)
#[local] Unset Elimination Schemes.
Inductive value : Type :=
  | VNil                                   (* the nil interface (a null field) *)
  | VBool (b : bool)
  | VInt (n : Z)                           (* int, int32, int64 *)
  | VFloat (bits : Z)                      (* float64, as its IEEE-754 bit pattern *)
  | VString (s : string)
  | VMap (m : list (string * value))       (* map[string]interface{} *)
  | VRow (m : list (string * value))       (* optimus.Row *)
  | VArr (l : list value).                 (* []interface{} *)
#[local] Set Elimination Schemes.

(** A document as [range] visits it. *)
Abbreviation entries := (list (string * value)).

(** optimus.Row, as a finite map: keys are unique and rows are compared by
    their lookups. *)
Abbreviation Row := (gmap string value).

Definition error := string.

(** A call either returns or panics. *)
Inductive outcome (A : Type) : Type :=
  | Returns (a : A)
  | Panics (msg : string).
Arguments Returns {A} a.
Arguments Panics {A} msg.

(** A call that may end in [log.Fatal] or [log.Fatalf]: it returns, or the
    process exits with the message logged. *)
Inductive orFatal (A : Type) : Type :=
  | Fine (a : A)
  | LogFatal (msg : string).
Arguments Fine {A} a.
Arguments LogFatal {A} msg.

#[global] Instance orFatal_bind : MBind orFatal := fun A B f m =>
  match m with
  | Fine a => f a
  | LogFatal msg => LogFatal msg
  end.

Module Config.

Module Field.
Record t := {
  Destination : string;
  Source : string;
  PII : bool
}.
End Field.

Module Meta.
Record t := {
  Database : string;
  DataDateColumn : string;
  UseProjectionOptimization : bool
}.
End Meta.

Module Table.
Record t := {
  Destination : string;
  Source : string;
  Fields : list Field.t;
  Meta : Meta.t
}.
End Table.

(** [Table{}], the table all of whose fields are the zero of their type. *)
Definition zeroTable : Table.t :=
  {| Table.Destination := ""; Table.Source := ""; Table.Fields := [];
     Table.Meta := {| Meta.Database := ""; Meta.DataDateColumn := "";
                      Meta.UseProjectionOptimization := false |} |}.

(** [Config], a map from names to tables, as the list of its entries in the
    order a [range] statement visits them. *)
Definition Config : Type := list (string * Table.t).

(** [Table.FieldMap]: every source path with the destinations it feeds, in
    the order the columns list them; columns without a destination are left
    out. *)
Definition FieldMap (t : Table.t) : gmap string (list string) :=
  foldl (fun mappings field =>
           if decide (Field.Destination field = "")
           then mappings
           else
             let list := default [] (mappings !! Field.Source field) in
             <[Field.Source field := list ++ [Field.Destination field]]> mappings)
        ∅ (Table.Fields t).

(** [GetPopulateDateFn]. *)
Definition GetPopulateDateFn (dataDateColumn timestamp : string) (r : Row)
    : Row * option error :=
  (<[dataDateColumn := VString timestamp]> r, None).

(** [IsZeroOfUnderlyingType]: [reflect.TypeOf] of the nil interface is the nil
    type, on which [reflect.Zero] panics; a value of any other dynamic type
    is compared with the zero of that type.  Two floats are compared with
    [==], under which both zeros are equal; a non-nil map or slice never
    equals the nil one. *)
Definition IsZeroOfUnderlyingType (x : value) : outcome bool :=
  match x with
  | VNil => Panics "reflect: Zero(nil)"
  | VBool b => Returns (negb b)
  | VInt n => Returns (n =? 0)
  | VFloat bits => Returns ((bits =? 0) || (bits =? 2 ^ 63))
  | VString s => Returns (bool_decide (s = ""))
  | VMap _ | VRow _ | VArr _ => Returns false
  end.

(** The loop of the function [GetExistentialTransformerFn] returns. *)
Fixpoint existential (fields : list Field.t) (r : Row) : outcome Row :=
  match fields with
  | [] => Returns r
  | field :: rest =>
      if Field.PII field then
        match r !! Field.Source field with
        | None => existential rest (<[Field.Source field := VBool false]> r)
        | Some val =>
            match IsZeroOfUnderlyingType val with
            | Returns z =>
                existential rest (<[Field.Source field := VBool (negb z)]> r)
            | Panics msg => Panics msg
            end
        end
      else existential rest r
  end.

(** [GetExistentialTransformerFn]. *)
Definition GetExistentialTransformerFn (t : Table.t) (r : Row)
    : outcome (Row * option error) :=
  match existential (Table.Fields t) r with
  | Returns r' => Returns (r', None)
  | Panics msg => Panics msg
  end.

(** [rowToMap]: a fresh map that receives the entries of the row one by
    one, in the order the row is ranged over. *)
Definition rowToMap (r : entries) : gmap string value :=
  foldl (fun m kv => <[kv.1 := kv.2]> m) ∅ r.

Section Flatten.

(** [json.Marshal] applied to a slice: the bytes (as a string) and the error. *)
Variable Marshal : list value -> string * option error.

(** The body of the [range] loop of [flatten] for one entry whose key
    [key := lkey + rkey] is already formed; [flatten_row] is the loop itself,
    local here because the two recurse through each other. *)
Fixpoint flatten_value (key : string) (value0 : value) (flattened : Row)
    {struct value0} : Row :=
  let fix flatten_row (lkey : string) (inputJSON : entries) (flattened : Row)
      {struct inputJSON} : Row :=
    match inputJSON with
    | [] => flattened
    | (rkey, value1) :: rest =>
        flatten_row lkey rest (flatten_value (lkey +:+ rkey) value1 flattened)
    end in
  match value0 with
  | VMap v => flatten_row (key +:+ ".") v flattened
  | VRow v => flatten_row (key +:+ ".") v flattened
  | VArr v =>
      let jsonVal := fst (Marshal v) in
      (fix subvalues (l : list value) (flattened : Row) {struct l} : Row :=
         match l with
         | [] => flattened
         | sv :: l' =>
             subvalues l'
               match sv with
               | VMap m => flatten_row (key +:+ ".") m flattened
               | VRow m => flatten_row (key +:+ ".") m flattened
               | _ => flattened
               end
         end) v (<[key := VString jsonVal]> flattened)
  | v => <[key := v]> flattened
  end.

(** [flatten(inputJSON, lkey, flattened)]. *)
Fixpoint flatten (inputJSON : entries) (lkey : string) (flattened : Row) : Row :=
  match inputJSON with
  | [] => flattened
  | (rkey, value0) :: rest =>
      flatten rest lkey (flatten_value (lkey +:+ rkey) value0 flattened)
  end.

(** [Flattener()]: the transform handed to [Map]. *)
Definition Flattener (r : entries) : Row * option error :=
  let outRow := flatten r "" ∅ in
  (outRow, None).

End Flatten.

End Config.

(** ** JSON documents and their text *)

(** What [encoding/json] (to which [ffjson.Marshal] hands every type of
    this program) writes: a document, then its compact text. *)
Module Json.

#[local] Unset Elimination Schemes.
Inductive t : Type :=
  | JNull
  | JBool (b : bool)
  | JNumber (text : string)
  | JString (s : string)
  | JArray (l : list t)
  | JObject (members : list (string * t)).
#[local] Set Elimination Schemes.

Definition dquote : string := String (ascii_of_nat 34) "".
Definition backslash : string := String (ascii_of_nat 92) "".

Definition hexdigit (n : nat) : string :=
  String (nth n (list_ascii_of_string "0123456789abcdef") "0"%char) "".

(** One byte below [utf8.RuneSelf] of a string literal: the quote and the
    backslash get a backslash, newline, carriage return and tab their short
    form, the other control bytes and [<], [>], [&] the six-character escape;
    every other byte is copied. *)
Definition escape (c : ascii) : string :=
  let n := nat_of_ascii c in
  if decide (n = 34)%nat then backslash +:+ dquote
  else if decide (n = 92)%nat then backslash +:+ backslash
  else if decide (n = 10)%nat then backslash +:+ "n"
  else if decide (n = 13)%nat then backslash +:+ "r"
  else if decide (n = 9)%nat then backslash +:+ "t"
  else if decide (n < 32 ∨ n = 60 ∨ n = 62 ∨ n = 38)%nat
       then backslash +:+ "u00" +:+ hexdigit (n / 16)%nat +:+ hexdigit (n mod 16)%nat
  else String c "".

(** [utf8.DecodeRuneInString] on a first byte [n] of 128 or more: the
    number of bytes of the character and the bounds of its second byte;
    [None] for a byte that starts no character. *)
Definition utf8_lead (n : nat) : option (nat * nat * nat) :=
  if decide (194 <= n <= 223)%nat then Some (2, 128, 191)%nat
  else if decide (n = 224)%nat then Some (3, 160, 191)%nat
  else if decide (n = 237)%nat then Some (3, 128, 159)%nat
  else if decide (225 <= n <= 239)%nat then Some (3, 128, 191)%nat
  else if decide (n = 240)%nat then Some (4, 144, 191)%nat
  else if decide (241 <= n <= 243)%nat then Some (4, 128, 191)%nat
  else if decide (n = 244)%nat then Some (4, 128, 143)%nat
  else None.

Definition utf8_tail (c : ascii) : bool :=
  bool_decide (128 <= nat_of_ascii c <= 191)%nat.

(** What is written for a byte that is no part of a character. *)
Definition replacement : string := backslash +:+ "ufffd".

(** The inside of a string literal.  A character of several bytes is
    copied, but for U+2028 and U+2029, which are written as escapes; a byte
    that does not decode is written as the escape of U+FFFD, and decoding
    goes on at the next byte. *)
Fixpoint escaped (s : string) : string :=
  match s with
  | EmptyString => ""
  | String c s1 =>
      let n := nat_of_ascii c in
      if decide (n < 128)%nat then escape c +:+ escaped s1
      else
        let invalid := replacement +:+ escaped s1 in
        match utf8_lead n, s1 with
        | Some (size, lo, hi), String c2 s2 =>
            if decide (lo <= nat_of_ascii c2 <= hi)%nat then
              match size, s2 with
              | 2%nat, _ => String c (String c2 "") +:+ escaped s2
              | 3%nat, String c3 s3 =>
                  if utf8_tail c3 then
                    (if decide (n = 226 ∧ nat_of_ascii c2 = 128 ∧
                                (nat_of_ascii c3 = 168 ∨ nat_of_ascii c3 = 169))%nat
                     then backslash +:+ "u202" +:+ hexdigit (nat_of_ascii c3 mod 16)%nat
                     else String c (String c2 (String c3 "")))
                    +:+ escaped s3
                  else invalid
              | 4%nat, String c3 (String c4 s4) =>
                  if utf8_tail c3 && utf8_tail c4
                  then String c (String c2 (String c3 (String c4 ""))) +:+ escaped s4
                  else invalid
              | _, _ => invalid
              end
            else invalid
        | _, _ => invalid
        end
  end.

Definition quote (s : string) : string := dquote +:+ escaped s +:+ dquote.

Fixpoint render (j : t) : string :=
  match j with
  | JNull => "null"
  | JBool true => "true"
  | JBool false => "false"
  | JNumber text => text
  | JString s => quote s
  | JArray l =>
      "[" +:+
      (fix items (l : list t) : string :=
         match l with
         | [] => ""
         | x :: l' =>
             match l' with
             | [] => render x
             | _ :: _ => render x +:+ "," +:+ items l'
             end
         end) l +:+ "]"
  | JObject members =>
      "{" +:+
      (fix items (l : list (string * t)) : string :=
         match l with
         | [] => ""
         | (k, x) :: l' =>
             match l' with
             | [] => quote k +:+ ":" +:+ render x
             | _ :: _ => quote k +:+ ":" +:+ render x +:+ "," +:+ items l'
             end
         end) members +:+ "}"
  end.

(** The members of a Go map are written in the order of their keys. *)
Definition key_le {A} (a b : string * A) : Prop := String.leb a.1 b.1 = true.

#[local] Instance key_le_dec {A} (a b : string * A) : Decision (key_le a b).
Proof. unfold key_le. apply _. Defined.

Definition by_key {A} (l : list (string * A)) : list (string * A) :=
  merge_sort key_le l.

(** The encoder's answer for a value: a document, or the error that makes
    [Marshal] return no bytes. *)
Definition encoded := (error + t)%type.

Definition first_error {K} (l : list (K * encoded)) : option error :=
  head (omap (fun kx => match kx.2 with inl e => Some e | inr _ => None end) l).

Definition documents {K} (l : list (K * encoded)) : list (K * t) :=
  omap (fun kx => match kx.2 with inl _ => None | inr j => Some (kx.1, j) end) l.

Section Encode.

(** [strconv]'s shortest decimal text of a finite float, from its bits. *)
Variable formatFloat : Z -> string.

Definition of_float (bits : Z) : encoded :=
  if decide ((bits / 2 ^ 52) mod 2 ^ 11 = 2047) then
    if decide (bits mod 2 ^ 52 = 0) then
      if decide (bits / 2 ^ 63 = 0)
      then inl "json: unsupported value: +Inf"
      else inl "json: unsupported value: -Inf"
    else inl "json: unsupported value: NaN"
  else inr (JNumber (formatFloat bits)).

Definition object_of (l : list (string * encoded)) : encoded :=
  let sorted := by_key l in
  match first_error sorted with
  | Some e => inl e
  | None => inr (JObject (documents sorted))
  end.

Definition array_of (l : list encoded) : encoded :=
  let l' := (fun x => (tt, x)) <$> l in
  match first_error l' with
  | Some e => inl e
  | None => inr (JArray (snd <$> documents l'))
  end.

Fixpoint of_value (v : value) : encoded :=
  match v with
  | VNil => inr JNull
  | VBool b => inr (JBool b)
  | VInt n => inr (JNumber (pretty n))
  | VFloat bits => of_float bits
  | VString s => inr (JString s)
  | VMap m | VRow m =>
      object_of
        ((fix members (m : list (string * value)) : list (string * encoded) :=
            match m with
            | [] => []
            | (k, x) :: m' => (k, of_value x) :: members m'
            end) m)
  | VArr l =>
      array_of
        ((fix items (l : list value) : list encoded :=
            match l with
            | [] => []
            | x :: l' => of_value x :: items l'
            end) l)
  end.

(** [json.Marshal] of a [[]interface{}]: on an error there are no bytes,
    and the string made of them is empty. *)
Definition Marshal (v : list value) : string * option error :=
  match of_value (VArr v) with
  | inr j => (render j, None)
  | inl e => ("", Some e)
  end.

End Encode.

End Json.

(** ** The transformer chain of optimus *)

Module Optimus.

(** Modelled from the spec: [transforms.Fieldmap] of the optimus library,
    which is not among this repository's sources: "produces a new row
    containing only destination keys: ... copies the sourcePath value into
    destPath (one source may fan to multiple destinations).  Unmapped source
    keys ... are dropped."  The mappings are visited in the order
    [map_to_list] lists them. *)
Definition Fieldmap (mappings : gmap string (list string)) (row : Row)
    : Row * option error :=
  (foldl (fun newRow kv =>
            match row !! kv.1 with
            | Some oldRowVal =>
                foldl (fun newRow val => <[val := oldRowVal]> newRow) newRow kv.2
            | None => newRow
            end)
         ∅ (map_to_list mappings),
   None).

(** Modelled from the spec: the chain [transformer.New(source).Map(f)...]
    of the optimus library: "ordered per-row mutators", "applied as a fixed
    ordered chain; any stage error aborts the entire run (no row-skip)".  A
    chain is what it does to one row of the source; [S] is the state its
    closures capture.  The answer is the transformed row or the error that
    stops the table. *)
Definition Transformer (S A B : Type) : Type :=
  A -> S -> outcome ((error + B) * S).

(** A function handed to [Map]: Go's [func(Row) (Row, error)], a closure
    over [S]. *)
Definition closure (S B C : Type) : Type :=
  B -> S -> outcome ((C * option error) * S).

Definition New {S A} : Transformer S A A :=
  fun a s => Returns (inr a, s).

Definition Map {S A B C} (f : closure S B C) (t : Transformer S A B)
    : Transformer S A C :=
  fun a s =>
    match t a s with
    | Panics msg => Panics msg
    | Returns (inl e, s') => Returns (inl e, s')
    | Returns (inr b, s') =>
        match f b s' with
        | Panics msg => Panics msg
        | Returns ((_, Some e), s'') => Returns (inl e, s'')
        | Returns ((c, None), s'') => Returns (inr c, s'')
        end
    end.

(** A function that captures nothing. *)
Definition func {S B C} (f : B -> C * option error) : closure S B C :=
  fun b s => Returns (f b, s).

(** A function that captures nothing and may panic. *)
Definition func_panics {S B C} (f : B -> outcome (C * option error))
    : closure S B C :=
  fun b s =>
    match f b with
    | Returns x => Returns (x, s)
    | Panics msg => Panics msg
    end.

(** [Sink]: every row the source delivers goes through the chain and is
    written; the first error ends the loop, and at the end of the source its
    own error is the answer.  The result carries what the sink received. *)
Fixpoint Sink {S A B} (t : Transformer S A B) (write : B -> option error)
    (source : list A) (sourceErr : option error) (s : S) (written : list B)
    : outcome (option error * S * list B) :=
  match source with
  | [] => Returns (sourceErr, s, written)
  | a :: rest =>
      match t a s with
      | Panics msg => Panics msg
      | Returns (inl e, s') => Returns (Some e, s', written)
      | Returns (inr b, s') =>
          match write b with
          | Some e => Returns (Some e, s', written)
          | None => Sink t write rest sourceErr s' (written ++ [b])
          end
      end
  end.

End Optimus.

(** A method call on a chain: [t |> m] is Go's [t.m]. *)
Notation "t |> m" := (m t) (at level 50, left associativity, only parsing).

(** ** Machine integers and calendar dates *)

(** The value an [int64] (and an [int] of a 64-bit build) holds after an
    arithmetic result [z]. *)
Definition wrap64 (z : Z) : Z := (z + 2 ^ 63) mod 2 ^ 64 - 2 ^ 63.

Module Time.

(** What [formatFilename] reads of a [time.Time]. *)
Record t := { Year : Z; Month : Z; Day : Z }.

(** [time.Time{}], what [Parse] returns with an error: January 1, year 1. *)
Definition zero : t := {| Year := 1; Month := 1; Day := 1 |}.

Definition digit (c : ascii) : option Z :=
  let n := Z.of_nat (nat_of_ascii c) in
  if decide (48 <= n <= 57) then Some (n - 48) else None.

Fixpoint number (acc : Z) (cs : list ascii) : option Z :=
  match cs with
  | [] => Some acc
  | c :: cs' =>
      match digit c with
      | Some d => number (10 * acc + d) cs'
      | None => None
      end
  end.

Definition isLeap (year : Z) : bool :=
  bool_decide (year mod 4 = 0 ∧ (year mod 100 ≠ 0 ∨ year mod 400 = 0)).

Definition daysIn (month year : Z) : Z :=
  if decide (month = 2) then (if isLeap year then 29 else 28)
  else if decide (month = 4 ∨ month = 6 ∨ month = 9 ∨ month = 11) then 30
  else 31.

Definition isDigit (c : ascii) : bool :=
  match digit c with Some _ => true | None => false end.

(** A number of one or two digits, and what follows it. *)
Definition getnum (cs : list ascii) : option (Z * list ascii) :=
  match cs with
  | c1 :: rest =>
      match digit c1 with
      | None => None
      | Some a =>
          match rest with
          | c2 :: rest' =>
              match digit c2 with
              | Some b => Some (10 * a + b, rest')
              | None => Some (a, rest)
              end
          | [] => Some (a, rest)
          end
      end
  | [] => None
  end.

Fixpoint skip_digits (cs : list ascii) : list ascii :=
  match cs with
  | c :: cs' => if isDigit c then skip_digits cs' else cs
  | [] => []
  end.

(** A fraction of a second is read after the seconds though the layout
    has none: a period or a comma, and digits. *)
Definition skip_fraction (cs : list ascii) : list ascii :=
  match cs with
  | sep :: c :: cs' =>
      if bool_decide (sep = "."%char ∨ sep = ","%char) && isDigit c
      then skip_digits cs' else cs
  | _ => cs
  end.

(** The zone that ends the text: [Z], or a sign, two digits, a colon and
    two digits, of at most 24 hours and 60 minutes. *)
Definition zone (cs : list ascii) : bool :=
  match cs with
  | ["Z"%char] => true
  | [sign; h1; h2; ":"%char; m1; m2] =>
      match number 0 [h1; h2], number 0 [m1; m2] with
      | Some hr, Some mm =>
          bool_decide ((sign = "+"%char ∨ sign = "-"%char) ∧ hr <= 24 ∧ mm <= 60)
      | _, _ => false
      end
  | _ => false
  end.

(** [time.Parse(time.RFC3339, s)], for what [formatFilename] reads of it:
    a year of four digits, month and day of two, [T], an hour of one or two
    digits, minutes and seconds of two, an optional fraction, and the zone.
    The time is in the zone of the text, so that its year, month and day are
    those of the text.  The texts of the errors are abridged. *)
Definition ParseRFC3339 (s : string) : t * option error :=
  match list_ascii_of_string s with
  | (y1 :: y2 :: y3 :: y4 :: "-" :: m1 :: m2 :: "-" :: d1 :: d2 :: "T" :: cs)%char =>
      match number 0 [y1; y2; y3; y4], number 0 [m1; m2], number 0 [d1; d2],
            getnum cs with
      | Some year, Some month, Some day,
        Some (hour, (":" :: n1 :: n2 :: ":" :: s1 :: s2 :: cs')%char) =>
          match number 0 [n1; n2], number 0 [s1; s2] with
          | Some min, Some sec =>
              if zone (skip_fraction cs') then
                if decide (1 <= month <= 12 ∧ 1 <= day <= daysIn month year ∧
                           hour < 24 ∧ min < 60 ∧ sec < 60)
                then ({| Year := year; Month := month; Day := day |}, None)
                else (zero, Some "parsing time: out of range")
              else (zero, Some "parsing time")
          | _, _ => (zero, Some "parsing time")
          end
      | _, _, _, _ => (zero, Some "parsing time")
      end
  | _ => (zero, Some "parsing time")
  end.

End Time.

Module Strconv.

Fixpoint digits (acc : Z) (cs : list ascii) : option Z :=
  match cs with
  | [] => Some acc
  | c :: cs' =>
      match Time.digit c with
      | Some d => digits (10 * acc + d) cs'
      | None => None
      end
  end.

(** [strconv.Atoi], which is [ParseInt(s, 10, 0)] for the 64-bit [int]: an
    optional sign, then at least one decimal digit and nothing else; a
    number outside the range of [int] is an error, answered with the nearest
    bound.  The texts of the errors are abridged. *)
Definition Atoi (s : string) : Z * option error :=
  let cs := list_ascii_of_string s in
  let signed :=
    match cs with
    | "+"%char :: rest => (1, rest)
    | "-"%char :: rest => (-1, rest)
    | _ => (1, cs)
    end in
  match signed.2 with
  | [] => (0, Some "invalid syntax")
  | _ :: _ =>
      match digits 0 signed.2 with
      | None => (0, Some "invalid syntax")
      | Some n =>
          let v := signed.1 * n in
          if decide (v < - 2 ^ 63) then (- 2 ^ 63, Some "value out of range")
          else if decide (2 ^ 63 <= v) then (2 ^ 63 - 1, Some "value out of range")
          else (v, None)
      end
  end.

End Strconv.

(** [fmt]'s [%02d] of an integer: at least two characters, zero-padded. *)
Definition fmt02d (n : Z) : string :=
  if decide (0 <= n < 10) then "0" +:+ pretty n else pretty n.

(** ** main.go: names, the per-row chain, the manifest *)

Module Main.
Import Config.

Section Filename.

(** [time.Parse(time.RFC3339, _)]: the time and the error. *)
Variable ParseRFC3339 : string -> Time.t * option error.

(** [formatFilename]; the error of [time.Parse] is dropped. *)
Definition formatFilename (timestamp collectionName fileIndex extension : string)
    : string :=
  let fileIndex :=
    if decide (fileIndex = "") then fileIndex else "_" +:+ fileIndex in
  let t := fst (ParseRFC3339 timestamp) in
  let filePath :=
    "mongo/" +:+ collectionName +:+
    "/_data_timestamp_year=" +:+ fmt02d (Time.Year t) +:+
    "/_data_timestamp_month=" +:+ fmt02d (Time.Month t) +:+
    "/_data_timestamp_day=" +:+ fmt02d (Time.Day t) +:+ "/" in
  let fileName :=
    "mongo_" +:+ collectionName +:+ "_" +:+ timestamp +:+ fileIndex +:+ extension in
  filePath +:+ fileName.

End Filename.

Section ExportData.

Variable Marshal : list value -> string * option error.

(** The chain [exportData] builds, in the order of its method calls; the
    state is its local [rows]. *)
Definition exportChain (table : Table.t) (timestamp : string)
    : Optimus.Transformer Z entries Row :=
  let datePopulator :=
    GetPopulateDateFn (Meta.DataDateColumn (Table.Meta table)) timestamp in
  let existentialTransformer := GetExistentialTransformerFn table in
  Optimus.New
    |> Optimus.Map (Optimus.func (Flattener Marshal))
    |> Optimus.Map (Optimus.func_panics existentialTransformer)
    |> Optimus.Map (Optimus.func (Optimus.Fieldmap (FieldMap table)))
    |> Optimus.Map (Optimus.func datePopulator)
    |> Optimus.Map (fun d rows => Returns ((d, None), wrap64 (rows + 1))).

(** [exportData]: [source] is what this call receives from the table and
    [sourceErr] the table's error once it is drained; [sink] is the write of
    one row.  Besides [(rows, err)] the result carries the rows written. *)
Definition exportData (source : list entries) (sourceErr : option error)
    (table : Table.t) (sink : Row -> option error) (timestamp : string)
    : outcome ((Z * option error) * list Row) :=
  let rows := 0 in
  match Optimus.Sink (exportChain table timestamp) sink source sourceErr rows [] with
  | Returns (err, rows, written) => Returns ((rows, err), written)
  | Panics msg => Panics msg
  end.

End ExportData.

Section Manifest.

Variable formatFloat : Z -> string.

(** [EntryArray], a slice of maps: [None] is the nil slice. *)
Definition EntryArray : Type := option (list entries).

(** [append] on a slice that may be nil. *)
Definition append {A} (s : option (list A)) (x : A) : option (list A) :=
  Some (default [] s ++ [x]).

Record Manifest := { Entries : EntryArray }.

(** [json.Marshal] of a [Manifest]: one member, named by the field's tag; a
    nil slice is written as [null]. *)
Definition MarshalManifest (m : Manifest) : string * option error :=
  let entries' :=
    match Entries m with
    | None => inr Json.JNull
    | Some l => Json.array_of ((fun e => Json.of_value formatFloat (VMap e)) <$> l)
    end in
  match entries' with
  | inr j => (Json.render (Json.JObject [("entries", j)]), None)
  | inl e => ("", Some e)
  end.

(** [createManifest]: the bytes behind the reader, and the error. *)
Definition createManifest (bucket : string) (dataFilenames : list string)
    : string * option error :=
  let entryArray :=
    foldl (fun entryArray fn =>
             append entryArray
               [("url", VString ("s3://" +:+ bucket +:+ "/" +:+ fn));
                ("mandatory", VBool true)])
          None dataFilenames in
  match MarshalManifest {| Entries := entryArray |} with
  | (_, Some err) => ("", Some err)
  | (jsonVal, None) => (jsonVal, None)
  end.

End Manifest.

(** *** Before the fan-out: environment, configuration, connection *)

Module Process.

Section Environment.

(** The environment of the process. *)
Variable environ : gmap string string.

(** [os.Getenv]: the value of the variable, empty when it is not set. *)
Definition Getenv (key : string) : string := default "" (environ !! key).

(** [getEnv]. *)
Definition getEnv (envVar : string) : orFatal string :=
  let val := Getenv envVar in
  if decide (val = "") then LogFatal ("Must specify env variable " +:+ envVar)
  else Fine val.

(** [init]: the value of the package variable [configs]; the four calls
    are made in the order of the literal. *)
Definition init : orFatal (gmap string string) :=
  il ← getEnv "IL_CONFIG";
  sis ← getEnv "SIS_CONFIG";
  app_sis ← getEnv "APP_SIS_CONFIG";
  legacy ← getEnv "LEGACY_CONFIG";
  Fine (<["legacy" := legacy]>
          (<["app_sis" := app_sis]> (<["sis" := sis]> (<["il" := il]> ∅)))).

End Environment.

End Process.

Module Mgo.

(** [DialInfo.DialServer]: not set, or the closure of [mongoConnection]
    that dials with TLS. *)
Inductive dialServer := NoDialServer | TLSDial.

(** What [mongoConnection] reads and writes of an [mgo.DialInfo]; [Others]
    holds its other fields. *)
Record DialInfo (A : Type) := {
  Username : string;
  Password : string;
  DialServer : dialServer;
  Others : A
}.
Arguments Username {A} _.
Arguments Password {A} _.
Arguments DialServer {A} _.
Arguments Others {A} _.

Inductive mode := Eventual | Monotonic | Strong.

End Mgo.

Section Connection.

Context {A Session : Type}.

(** [mgo.ParseURL] and [mgo.DialWithInfo]: an error, or the result. *)
Variable ParseURL : string -> error + Mgo.DialInfo A.
Variable DialWithInfo : Mgo.DialInfo A -> error + Session.
Variable SetMode : Session -> Mgo.mode -> bool -> Session.

(** [mongoConnection]. *)
Definition mongoConnection (url username password : string)
    : option Session * option error :=
  match ParseURL url with
  | inl err => (None, Some err)
  | inr dialInfo =>
      let dialInfo :=
        {| Mgo.Username := Mgo.Username dialInfo;
           Mgo.Password := Mgo.Password dialInfo;
           Mgo.DialServer := Mgo.TLSDial;
           Mgo.Others := Mgo.Others dialInfo |} in
      let dialInfo :=
        if decide (username = "") then dialInfo
        else
          let dialInfo :=
            {| Mgo.Username := username;
               Mgo.Password := Mgo.Password dialInfo;
               Mgo.DialServer := Mgo.DialServer dialInfo;
               Mgo.Others := Mgo.Others dialInfo |} in
          if decide (password = "") then dialInfo
          else
            {| Mgo.Username := Mgo.Username dialInfo;
               Mgo.Password := password;
               Mgo.DialServer := Mgo.DialServer dialInfo;
               Mgo.Others := Mgo.Others dialInfo |} in
      match DialWithInfo dialInfo with
      | inl err => (None, Some err)
      | inr session => (Some (SetMode session Mgo.Monotonic true), None)
      end
  end.

End Connection.

Section MongoSource.

Context {Session OptimusTable : Type}.

(** The query of [configuredOptimusTable] as far as the table decides it:
    the collection read in full, with the projection [fields]. *)
Variable Find : Session -> string -> gmap string value -> OptimusTable.

(** [configuredOptimusTable]. *)
Definition configuredOptimusTable (s : Session) (table : Table.t) : OptimusTable :=
  let fields :=
    if Meta.UseProjectionOptimization (Table.Meta table)
    then foldl (fun fields f => <[Field.Source f := VInt 1]> fields) ∅
               (Table.Fields table)
    else ∅ in
  Find s (Table.Source table) fields.

End MongoSource.

(** [parseConfigString]; [ParseYAML] is [config.ParseYAML]. *)
Definition parseConfigString (ParseYAML : string -> Config * option error)
    (conf : string) : orFatal Config :=
  match ParseYAML conf with
  | (_, Some err) => LogFatal ("err parsing config file: " +:+ err)
  | (configYaml, None) => Fine configYaml
  end.

(** [copyConfigFile]; [Write] is [pathio.Write]. *)
Definition copyConfigFile (ParseRFC3339 : string -> Time.t * option error)
    (Write : string -> string -> option error)
    (bucket timestamp data configName : string) : orFatal string :=
  let outPath := formatFilename ParseRFC3339 timestamp configName "" ".yml" in
  let outPath :=
    if decide (bucket = "") then outPath
    else "s3://" +:+ bucket +:+ "/" +:+ outPath in
  match Write outPath data with
  | Some err => LogFatal ("error writing output file: " +:+ err)
  | None => Fine outPath
  end.

(** [getTableFromConf]. *)
Definition getTableFromConf (sourceInput : string) (configYaml : Config)
    : Table.t * option error :=
  if decide (sourceInput = "") then (zeroTable, Some "No collection specified")
  else
    let curTable :=
      foldl (fun curTable kt =>
               if decide (sourceInput = Table.Source kt.2) then kt.2 else curTable)
            zeroTable configYaml in
    if decide (Table.Destination curTable = "") then
      (zeroTable,
       Some ("Could not find source table: " +:+ sourceInput +:+ " in config"))
    else (curTable, None).

Module Flags.
(** The flags of [main], as [AnalyticsWorker] has filled them. *)
Record t := {
  Name : string;
  Collection : string;
  Bucket : string;
  NumFiles : string
}.
End Flags.

Module Started.
(** What [main] holds when it reaches the counters and the fan-out. *)
Record t := {
  numFiles : Z;
  confFileName : string;
  sourceTable : Table.t;
  outputTableName : string
}.
End Started.

Section Startup.

Variable ParseRFC3339 : string -> Time.t * option error.
Variable ParseYAML : string -> Config * option error.
Variable Write : string -> string -> option error.

(** The package variable [configs]. *)
Variable configs : gmap string string.

(** [main] up to the counters (main.go:245-293).  [workerErr] is the error
    of [AnalyticsWorker], [timestamp] the formatted time of the run, and
    [connErr] the error [mongoConnection] returns. *)
Definition startup (flags : Flags.t) (workerErr : option error)
    (timestamp : string) (connErr : option error) : orFatal Started.t :=
  match workerErr with
  | Some err => LogFatal ("err: " +:+ err)
  | None =>
      match Strconv.Atoi (Flags.NumFiles flags) with
      | (_, Some err) => LogFatal err
      | (numFiles, None) =>
          if decide (numFiles < 1)
          then LogFatal "Must specify a number of output file parts >= 1"
          else
            match configs !! Flags.Name flags with
            | None => LogFatal "config sucks"
            | Some c =>
                configYaml ← parseConfigString ParseYAML c;
                confFileName ←
                  copyConfigFile ParseRFC3339 Write (Flags.Bucket flags) timestamp c
                    (Flags.Name flags);
                match getTableFromConf (Flags.Collection flags) configYaml with
                | (_, Some err) => LogFatal err
                | (sourceTable, None) =>
                    match connErr with
                    | Some _ =>
                        Fine {| Started.numFiles := numFiles;
                                Started.confFileName := confFileName;
                                Started.sourceTable := sourceTable;
                                Started.outputTableName :=
                                  Table.Destination sourceTable |}
                    | None => LogFatal "Could not connect to mongo"
                    end
                end
            end
      end
  end.

End Startup.

(** *** The fan-out: goroutines, barrier, reconciliation, manifest

    The goroutines of [main], from the two counters on (main.go:296-359), as
    a transition system over the variables they share.  An action is one step
    of one goroutine, together with what the outside world answers to it (an
    error of the source, of a sink write, of an upload); a schedule is a list
    of actions, and the scheduler is free to pick any action that can happen.
    A state holds the variables at some point after the spawning loop, for a
    table that delivers documents.  [err] is the variable [err] of [main]:
    every export goroutine tests it before it builds its sink, and nothing
    assigns it between the call of [mongoConnection] and the barrier.  How
    [main] itself comes to the loop is [main], below.

    Taken from the libraries: [optimus.Transform] runs the callback of
    [transforms.Each] in one goroutine, which hands every row it has counted
    to the channel all chains receive from, each row to one receiver; a
    chain's table ends when that channel is closed and empty;
    [uploader.Upload] returns without an error only once the writer of its
    pipe is closed; [log.Fatal] and a panic in any goroutine end the process.
    A row goes through the whole chain and the sink of the shard that
    receives it in one step. *)

(** Where an export goroutine stands: spawned and not yet returned from
    [exportData], or returned. *)
Inductive export_pc := Exporting | Closed.
Inductive upload_pc := Uploading | Done.

(** One iteration of the spawning loop: the object name; the rows its
    [exportData] call has received, its counter and what its sink holds; and
    where its two goroutines stand. *)
Record shard := {
  outputName : string;
  received : list entries;
  rows : Z;
  written : list Row;
  exporter : export_pc;
  uploader : upload_pc
}.

(** The callback given to [transforms.Each]: [totalMongoRows++] is a read of
    the variable followed by a write of the incremented value. *)
Inductive each_pc := Idle | Loaded (v : Z) (d : entries).

Inductive status :=
  | Running
  | Fatal (msg : string)       (* log.Fatal: the process has exited *)
  | Panicked (msg : string)
  | Published.                 (* the manifest upload has returned *)

Inductive object :=
  | ShardObject (key : string) (content : list Row)
  | ManifestObject (key : string) (body : string).

Record state := {
  iter : list entries;          (* documents the Mongo iterator has yet to deliver *)
  each : each_pc;
  channel : list entries;       (* rows of mongoSource no chain has received yet *)
  totalMongoRows : Z;
  totalSummedRows : Z;
  shards : list shard;
  uploaded : list object;       (* what uploader.Upload has stored, oldest first *)
  st : status
}.

Inductive action :=
  | EachLoad
  | EachStore
  | Claim (i : nat) (sinkErr : option error)
  | ExportReturn (i : nat) (readErr : option error)
  | UploadReturn (i : nat) (uploadErr : option error)
  | Reconcile (manifestErr : option error).

Definition with_status (s : state) (x : status) : state :=
  {| iter := iter s; each := each s; channel := channel s;
     totalMongoRows := totalMongoRows s; totalSummedRows := totalSummedRows s;
     shards := shards s; uploaded := uploaded s; st := x |}.


Definition all_done (s : state) : bool :=
  forallb (fun sh => match uploader sh with Done => true | Uploading => false end)
          (shards s).

Section Run.

Variable Marshal : list value -> string * option error.
Variable ParseRFC3339 : string -> Time.t * option error.
Variable formatFloat : Z -> string.
Variable bucket : string.          (* flags.Bucket *)
Variable sourceTable : Table.t.
Variable timestamp : string.
Variable err : option error.       (* the [err] of [main], main.go:284 *)

(** The variables when the spawning loop (main.go:309-345) has run
    [numFiles] times, for a table that is to deliver the documents [docs]:
    nothing read, nothing written, every goroutine spawned. *)
Definition init (docs : list entries) (numFiles : nat) : state :=
  {| iter := docs; each := Idle; channel := [];
     totalMongoRows := 0; totalSummedRows := 0;
     shards :=
       (fun i : nat =>
          {| outputName :=
               formatFilename ParseRFC3339 timestamp
                 (Table.Destination sourceTable) (pretty (Z.of_nat i)) ".json.gz";
             received := []; rows := 0; written := [];
             exporter := Exporting; uploader := Uploading |})
       <$> seq 0 numFiles;
     uploaded := []; st := Running |}.

(** [main] past [waitGroup.Wait()]: the comparison of the two counters, and
    the manifest; [manifestErr] is what the upload of the manifest
    returns. *)
Definition reconcile (s : state) (manifestErr : option error) : state :=
  if decide (totalSummedRows s ≠ totalMongoRows s) then
    with_status s
      (Fatal "number of rows written to s3 does not match the number of rows pulled from mongo")
  else
    let manifestFilename :=
      formatFilename ParseRFC3339 timestamp (Table.Destination sourceTable)
        "" ".manifest" in
    match createManifest formatFloat bucket (outputName <$> shards s) with
    | (_, Some err) => with_status s (Fatal "Error creating manifest")
    | (body, None) =>
        match manifestErr with
        | Some err => with_status s (Fatal "err uploading to s3 path")
        | None =>
            {| iter := iter s; each := each s; channel := channel s;
               totalMongoRows := totalMongoRows s;
               totalSummedRows := totalSummedRows s;
               shards := shards s;
               uploaded := uploaded s ++ [ManifestObject manifestFilename body];
               st := Published |}
        end
    end.

(** One step; [None] when the action cannot happen in [s].  Nothing
    happens once the process has ended.  The first thing an export goroutine
    does is the test of [err] (main.go:320-322): when [err] is not nil its
    step, whichever it is, is that exit. *)
Definition step (a : action) (s : state) : option state :=
  match st s with
  | Running =>
      match a with
      | EachLoad =>
          match each s, iter s with
          | Idle, d :: rest =>
              Some {| iter := rest; each := Loaded (totalMongoRows s) d;
                      channel := channel s;
                      totalMongoRows := totalMongoRows s;
                      totalSummedRows := totalSummedRows s;
                      shards := shards s; uploaded := uploaded s; st := st s |}
          | _, _ => None
          end
      | EachStore =>
          match each s with
          | Loaded v d =>
              Some {| iter := iter s; each := Idle;
                      channel := channel s ++ [d];
                      totalMongoRows := wrap64 (v + 1);
                      totalSummedRows := totalSummedRows s;
                      shards := shards s; uploaded := uploaded s; st := st s |}
          | Idle => None
          end
      | Claim i sinkErr =>
          match shards s !! i with
          | Some sh =>
              match exporter sh with
              | Closed => None
              | Exporting =>
                  match err with
                  | Some e => Some (with_status s (Fatal "invalid compression level"))
                  | None =>
                      match channel s with
                      | [] => None
                      | d :: rest =>
                          match exportChain Marshal sourceTable timestamp d (rows sh) with
                          | Panics msg => Some (with_status s (Panicked msg))
                          | Returns (inl e, _) =>
                              Some (with_status s (Fatal "err reading table"))
                          | Returns (inr r, n) =>
                              match sinkErr with
                              | Some e =>
                                  Some (with_status s (Fatal "err reading table"))
                              | None =>
                                  Some {| iter := iter s; each := each s;
                                          channel := rest;
                                          totalMongoRows := totalMongoRows s;
                                          totalSummedRows := totalSummedRows s;
                                          shards :=
                                            <[i := {| outputName := outputName sh;
                                                      received := received sh ++ [d];
                                                      rows := n;
                                                      written := written sh ++ [r];
                                                      exporter := Exporting;
                                                      uploader := uploader sh |}]>
                                              (shards s);
                                          uploaded := uploaded s; st := st s |}
                              end
                          end
                      end
                  end
              end
          | None => None
          end
      | ExportReturn i readErr =>
          match shards s !! i with
          | Some sh =>
              match exporter sh with
              | Closed => None
              | Exporting =>
                  match err with
                  | Some e => Some (with_status s (Fatal "invalid compression level"))
                  | None =>
                      match readErr with
                      | Some e => Some (with_status s (Fatal "err reading table"))
                      | None =>
                          match iter s, each s, channel s with
                          | [], Idle, [] =>
                              Some {| iter := iter s; each := each s;
                                      channel := channel s;
                                      totalMongoRows := totalMongoRows s;
                                      totalSummedRows :=
                                        wrap64 (totalSummedRows s + rows sh);
                                      shards :=
                                        <[i := {| outputName := outputName sh;
                                                  received := received sh;
                                                  rows := rows sh;
                                                  written := written sh;
                                                  exporter := Closed;
                                                  uploader := uploader sh |}]>
                                          (shards s);
                                      uploaded := uploaded s; st := st s |}
                          | _, _, _ => None
                          end
                      end
                  end
              end
          | None => None
          end
      | UploadReturn i uploadErr =>
          match shards s !! i with
          | Some sh =>
              match uploader sh, uploadErr with
              | Done, _ => None
              | Uploading, Some e =>
                  Some (with_status s (Fatal "err uploading to s3 path"))
              | Uploading, None =>
                  match exporter sh with
                  | Exporting => None
                  | Closed =>
                      Some {| iter := iter s; each := each s; channel := channel s;
                              totalMongoRows := totalMongoRows s;
                              totalSummedRows := totalSummedRows s;
                              shards :=
                                <[i := {| outputName := outputName sh;
                                          received := received sh;
                                          rows := rows sh;
                                          written := written sh;
                                          exporter := exporter sh;
                                          uploader := Done |}]>
                                  (shards s);
                              uploaded :=
                                uploaded s ++
                                [ShardObject (outputName sh) (written sh)];
                              st := st s |}
                  end
              end
          | None => None
          end
      | Reconcile manifestErr =>
          if all_done s then Some (reconcile s manifestErr) else None
      end
  | _ => None
  end.

(** A schedule, run from [s]; [None] when one of its actions cannot
    happen. *)
Fixpoint exec (sched : list action) (s : state) : option state :=
  match sched with
  | [] => Some s
  | a :: sched' =>
      match step a s with
      | Some s' => exec sched' s'
      | None => None
      end
  end.

End Run.

(** *** [main], from its first line to the spawning loop *)

Section MainProgram.

Context {A Session OptimusTable : Type}.
Variable ParseRFC3339 : string -> Time.t * option error.
Variable ParseYAML : string -> Config * option error.
Variable Write : string -> string -> option error.
Variable configs : gmap string string.
Variable ParseURL : string -> error + Mgo.DialInfo A.
Variable DialWithInfo : Mgo.DialInfo A -> error + Session.
Variable SetMode : Session -> Mgo.mode -> bool -> Session.
Variable Find : Session -> string -> gmap string value -> OptimusTable.

(** The documents a table delivers when it is read. *)
Variable Rows : OptimusTable -> list entries.

(** [configuredOptimusTable(mongoClient, sourceTable)] as [main] calls it,
    with a [*mgo.Session] that may be nil: [s.DB("")] reads a field of [s],
    which on the nil session is a nil pointer dereference (mgo's code). *)
Definition mongoSource (mongoClient : option Session) (table : Table.t)
    : outcome OptimusTable :=
  match mongoClient with
  | None => Panics "invalid memory address or nil pointer dereference"
  | Some s => Returns (configuredOptimusTable Find s table)
  end.

(** [main] up to the end of the spawning loop (main.go:244-345): the [err]
    the goroutines see and the state they start in.  [url], [username] and
    [password] are what [main] hands to [mongoConnection]. *)
Definition main (flags : Flags.t) (workerErr : option error) (timestamp : string)
    (url username password : string) : orFatal (outcome (option error * state)) :=
  let '(mongoClient, err) :=
    mongoConnection ParseURL DialWithInfo SetMode url username password in
  p ← startup ParseRFC3339 ParseYAML Write configs flags workerErr timestamp err;
  Fine
    match mongoSource mongoClient (Started.sourceTable p) with
    | Panics msg => Panics msg
    | Returns table =>
        Returns
          (err,
           init ParseRFC3339 (Started.sourceTable p) timestamp (Rows table)
             (Z.to_nat (Started.numFiles p)))
    end.

End MainProgram.

End Main.

(** ** Notions the properties are stated with *)

Import Config Main.

(** A value the type switch of [flatten] descends into as a mapping. *)
Definition is_mapping (v : value) : bool :=
  match v with VMap _ | VRow _ => true | _ => false end.

(** A value [flatten] does not store as it is. *)
Definition nested (v : value) : bool :=
  match v with VMap _ | VRow _ | VArr _ => true | _ => false end.

(** What the inner loop of the slice case does with one element. *)
Definition flatten_element (Marshal : list value -> string * option error)
    (key : string) (flattened : Row) (sv : value) : Row :=
  match sv with
  | VMap m | VRow m => flatten Marshal m (key +:+ ".") flattened
  | _ => flattened
  end.

Definition flat (r : Row) : Prop := map_Forall (fun _ v => nested v = false) r.

Definition has_prefix (p k : string) : Prop := exists s, k = p +:+ s.

(** The source paths of the sensitive columns. *)
Definition pii_sources (fields : list Field.t) : list string :=
  Field.Source <$> filter (fun f => Field.PII f = true) fields.

(** The boolean the existential transformer writes for what a row holds at
    a path; there is none for a nil. *)
Definition exists_nonzero (o : option value) : option bool :=
  match o with
  | None => Some false
  | Some val =>
      match IsZeroOfUnderlyingType val with
      | Returns z => Some (negb z)
      | Panics _ => None
      end
  end.

(** One entry of the manifest, as a document. *)
Definition entry_document (url : string) : Json.t :=
  Json.JObject [("mandatory", Json.JBool true); ("url", Json.JString url)].

Definition Zsum {A} (f : A -> Z) (l : list A) : Z :=
  foldr (fun x acc => f x + acc) 0 l.

Definition written_rows (sh : shard) : Z := Z.of_nat (length (written sh)).

Definition closed_rows (sh : shard) : Z :=
  match exporter sh with Closed => rows sh | Exporting => 0 end.

Definition in_callback (s : state) : Z :=
  match each s with Loaded _ _ => 1 | Idle => 0 end.

(** The invariant of the fan-out over a table of [length docs] documents:
    it holds when the spawning loop has ended, and every step keeps it. *)
Record consistent (docs : list entries) (s : state) : Prop := {
  c_rows : Forall (fun sh => rows sh = wrap64 (written_rows sh)) (shards s);
  c_mongo : totalMongoRows s =
            wrap64 (Zsum written_rows (shards s) + Z.of_nat (length (channel s)));
  c_loaded : match each s with Loaded v _ => v = totalMongoRows s | Idle => True end;
  c_summed : totalSummedRows s = wrap64 (Zsum closed_rows (shards s));
  c_order : Forall (fun sh => uploader sh = Done -> exporter sh = Closed) (shards s);
  c_drain : Forall (fun sh => exporter sh = Closed ->
                      iter s = [] /\ each s = Idle /\ channel s = []) (shards s);
  c_total : Z.of_nat (length (iter s)) + in_callback s + Z.of_nat (length (channel s)) +
            Zsum written_rows (shards s) = Z.of_nat (length docs)
}.

(** The counter and the sink of a shard are what [exportData] returns on
    the rows the shard has received, when neither source nor sink fails. *)
Definition returned (Marshal : list value -> string * option error)
    (table : Table.t) (timestamp : string) (sh : shard) : Prop :=
  exportData Marshal (received sh) None table (fun _ => None) timestamp =
  Returns ((rows sh, None), written sh).





(** *** Flatten, by the assignments it makes *)

(** The entries of a value the type switch of [flatten] treats as a
    mapping. *)
Definition members (v : value) : option entries :=
  match v with VMap m | VRow m => Some m | _ => None end.

(** [leaf Marshal key v k x]: flattening the value [v] met under [key]
    assigns [x] to the key [k] at some point: [v] itself when it is neither
    a mapping nor a slice, the serialized string of a slice, and what the
    entries of a mapping, or of an element of a slice that is a mapping,
    assign under the prefix [key + "."]. *)
Inductive leaf (Marshal : list value -> string * option error)
    : string -> value -> string -> value -> Prop :=
  | leaf_scalar key v :
      nested v = false -> leaf Marshal key v key v
  | leaf_slice key l :
      leaf Marshal key (VArr l) key (VString (Marshal l).1)
  | leaf_member key v m rkey v' k x :
      members v = Some m -> (rkey, v') ∈ m ->
      leaf Marshal ((key +:+ ".") +:+ rkey) v' k x ->
      leaf Marshal key v k x
  | leaf_element key l sv k x :
      sv ∈ l -> is_mapping sv = true ->
      leaf Marshal key sv k x ->
      leaf Marshal key (VArr l) k x.

(** The same for the entries of a document ranged over with the prefix
    [lkey]. *)
Definition doc_leaf (Marshal : list value -> string * option error)
    (lkey : string) (d : entries) (k : string) (x : value) : Prop :=
  exists rkey v, (rkey, v) ∈ d /\ leaf Marshal (lkey +:+ rkey) v k x.

(** What the row holds after a value is flattened was there before or is
    one of its assignments; and no key is lost. *)
Definition assigns_leaves (Marshal : list value -> string * option error)
    (v : value) : Prop :=
  forall key acc k x,
    flatten_value Marshal key v acc !! k = Some x ->
    acc !! k = Some x \/ leaf Marshal key v k x.

Definition keeps_keys (Marshal : list value -> string * option error)
    (v : value) : Prop :=
  forall key acc k,
    is_Some (acc !! k) -> is_Some (flatten_value Marshal key v acc !! k).

(** *** Columns *)

(** The destinations the columns of a table give to a source path, in the
    order of the columns. *)
Definition destinations (t : Table.t) (source : string) : list string :=
  Field.Destination <$>
    filter (fun f => Field.Source f = source /\ Field.Destination f <> "")
           (Table.Fields t).

(** The source paths of all the columns of a table. *)
Definition sources (t : Table.t) : list string := Field.Source <$> Table.Fields t.

(** One turn of the loop of [FieldMap]. *)
Definition FieldMap_add (mappings : gmap string (list string)) (field : Field.t)
    : gmap string (list string) :=
  if decide (Field.Destination field = "") then mappings
  else <[Field.Source field :=
           default [] (mappings !! Field.Source field) ++ [Field.Destination field]]>
         mappings.

(** One turn of the outer loop of the field map transform. *)
Definition Fieldmap_copy (row : Row) (newRow : Row) (kv : string * list string) : Row :=
  match row !! kv.1 with
  | Some oldRowVal => foldl (fun newRow val => <[val := oldRowVal]> newRow) newRow kv.2
  | None => newRow
  end.

(** The row the chain of [exportData] hands to the sink for a document, when
    there is one. *)
Definition exported (Marshal : list value -> string * option error)
    (table : Table.t) (timestamp : string) (d : entries) : option Row :=
  match exportChain Marshal table timestamp d 0 with
  | Returns (inr r, _) => Some r
  | _ => None
  end.

(** A document that holds no nil at a sensitive path once flattened. *)
Definition no_nil_sensitive (Marshal : list value -> string * option error)
    (table : Table.t) (d : entries) : Prop :=
  forall k, k ∈ pii_sources (Table.Fields table) ->
            (Flattener Marshal d).1 !! k <> Some VNil.

(** *** Names and configurations *)

(** The name of the shard of index [i], as [main] forms it. *)
Definition shardName (ParseRFC3339 : string -> Time.t * option error)
    (timestamp dest : string) (i : nat) : string :=
  formatFilename ParseRFC3339 timestamp dest (pretty (Z.of_nat i)) ".json.gz".

(** The name of the manifest. *)
Definition manifestName (ParseRFC3339 : string -> Time.t * option error)
    (timestamp dest : string) : string :=
  formatFilename ParseRFC3339 timestamp dest "" ".manifest".

(** The key under which [copyConfigFile] stores the configuration. *)
Definition configKey (ParseRFC3339 : string -> Time.t * option error)
    (timestamp name : string) : string :=
  formatFilename ParseRFC3339 timestamp name "" ".yml".

(** The last character of a text that is not empty. *)
Fixpoint last_char (s : string) : option ascii :=
  match s with
  | EmptyString => None
  | String c EmptyString => Some c
  | String _ s' => last_char s'
  end.

(** The tables of a configuration that export the collection
    [sourceInput], in the order the configuration is ranged over. *)
Definition tables_of (sourceInput : string) (configYaml : Config) : list Table.t :=
  filter (fun t => Table.Source t = sourceInput) configYaml.*2.

(** The names [init] gives the four configurations, each with the variable
    it is read from. *)
Definition config_variables : list (string * string) :=
  [("il", "IL_CONFIG"); ("sis", "SIS_CONFIG"); ("app_sis", "APP_SIS_CONFIG");
   ("legacy", "LEGACY_CONFIG")].

(** *** The data of the examples *)

(** No example below holds a finite float; their text is left empty. *)
Definition noFloatText (bits : Z) : string := "".

Definition jsonMarshal : list value -> string * option error :=
  Json.Marshal noFloatText.

(** The columns of the scenario: [a.b] to [x], and the sensitive [a.c] to
    [y]; the date column is [_data_timestamp]. *)
Definition scenarioTable : Table.t :=
  {| Table.Destination := "students";
     Table.Source := "students";
     Table.Fields :=
       [ {| Field.Destination := "x"; Field.Source := "a.b"; Field.PII := false |};
         {| Field.Destination := "y"; Field.Source := "a.c"; Field.PII := true |} ];
     Table.Meta :=
       {| Meta.Database := "clever";
          Meta.DataDateColumn := "_data_timestamp";
          Meta.UseProjectionOptimization := false |} |}.

Definition scenarioTimestamp : string := "2024-01-01T00:00:00Z".

(** The document [{a: {b: 5, c: 0}}]. *)
Definition scenarioRow : entries := [("a", VMap [("b", VInt 5); ("c", VInt 0)])].

(** The document [{a: {b: 5, c: null}}]. *)
Definition nullRow : entries := [("a", VMap [("b", VInt 5); ("c", VNil)])].

(** A quiet NaN. *)
Definition NaN : value := VFloat (2047 * 2 ^ 52 + 2 ^ 51).

Definition scenarioDocs : list entries :=
  [scenarioRow; [("a", VMap [("b", VInt 6)])]; []].

Definition scenarioInit : state :=
  init Time.ParseRFC3339 scenarioTable scenarioTimestamp scenarioDocs 2.

(** The schedules of the scenario are run with an [err] that is nil. *)
Definition scenarioExec (sched : list action) (s : state) : option state :=
  exec jsonMarshal Time.ParseRFC3339 noFloatText "clever-analytics"
    scenarioTable scenarioTimestamp None sched s.

(** A schedule up to the barrier: both shards receive rows, and the
    second document is read while the first is still in the channel. *)
Definition scenarioToBarrier : list action :=
  [EachLoad; EachStore; EachLoad; Claim 1 None; EachStore; Claim 0 None;
   EachLoad; EachStore; Claim 1 None;
   ExportReturn 1 None; UploadReturn 1 None;
   ExportReturn 0 None; UploadReturn 0 None].

Definition scenarioShard (i : string) : string :=
  "mongo/students/_data_timestamp_year=2024/_data_timestamp_month=01/_data_timestamp_day=01/mongo_students_2024-01-01T00:00:00Z_"
  +:+ i +:+ ".json.gz".

(** The text of one entry of a manifest. *)
Definition entryText (url : string) : string :=
  "{" +:+ Json.quote "mandatory" +:+ ":true," +:+
  Json.quote "url" +:+ ":" +:+ Json.quote url +:+ "}".









(** The flags, the configurations and the answer of the YAML parser of the
    example start. *)
Definition scenarioFlags : Flags.t :=
  {| Flags.Name := "il"; Flags.Collection := "students";
     Flags.Bucket := "clever-analytics"; Flags.NumFiles := "2" |}.

Definition scenarioConfigs : gmap string string := {[ "il" := "students: ..." ]}.

Definition scenarioYAML (conf : string) : Config * option error :=
  ([("students", scenarioTable)], None).

(** * Properties *)

(** ** Induction on values *)

Section value_induction.

Variable P : value -> Prop.
Hypothesis HNil : P VNil.
Hypothesis HBool : forall b, P (VBool b).
Hypothesis HInt : forall n, P (VInt n).
Hypothesis HFloat : forall bits, P (VFloat bits).
Hypothesis HString : forall s, P (VString s).
Hypothesis HMap : forall m, Forall (fun kv => P kv.2) m -> P (VMap m).
Hypothesis HRow : forall m, Forall (fun kv => P kv.2) m -> P (VRow m).
Hypothesis HArr : forall l, Forall P l -> P (VArr l).

Fixpoint value_ind (v : value) : P v :=
  let fix members (m : entries) : Forall (fun kv => P kv.2) m :=
    match m with
    | [] => List.Forall_nil _
    | (k, x) :: m' => List.Forall_cons _ (k, x) m' (value_ind x) (members m')
    end in
  match v with
  | VNil => HNil
  | VBool b => HBool b
  | VInt n => HInt n
  | VFloat bits => HFloat bits
  | VString s => HString s
  | VMap m => HMap m (members m)
  | VRow m => HRow m (members m)
  | VArr l =>
      HArr l ((fix items (l : list value) : Forall P l :=
                 match l with
                 | [] => List.Forall_nil _
                 | x :: l' => List.Forall_cons _ x l' (value_ind x) (items l')
                 end) l)
  end.

End value_induction.

(** ** Strings *)

Lemma string_app_assoc (a b c : string) : (a +:+ b) +:+ c = a +:+ (b +:+ c).
Proof.
  induction a as [|x a IH]; [done|].
  change (String x ((a +:+ b) +:+ c) = String x (a +:+ (b +:+ c))). by rewrite IH.
Qed.

Lemma string_app_nil_r (a : string) : a +:+ "" = a.
Proof.
  induction a as [|x a IH]; [done|].
  change (String x (a +:+ "") = String x a). by rewrite IH.
Qed.

Lemma string_app_length (a b : string) :
  String.length (a +:+ b) = (String.length a + String.length b)%nat.
Proof.
  induction a as [|x a IH]; [done|].
  change (S (String.length (a +:+ b)) = S (String.length a + String.length b)).
  by rewrite IH.
Qed.

Lemma has_prefix_refl k : has_prefix k k.
Proof. exists "". by rewrite string_app_nil_r. Qed.

Lemma has_prefix_app p q k : has_prefix (p +:+ q) k -> has_prefix p k.
Proof. intros [s ->]. exists (q +:+ s). apply string_app_assoc. Qed.

Lemma not_prefix_dot key : ~ has_prefix (key +:+ ".") key.
Proof.
  intros [s Hs]. apply (f_equal String.length) in Hs.
  rewrite !string_app_length in Hs. simpl in Hs. lia.
Qed.

(** ** Flatten *)

Section FlattenFacts.

Variable Marshal : list value -> string * option error.

(** The cases of the type switch, with the loops written as folds. *)
Lemma flatten_value_unfold key v acc :
  flatten_value Marshal key v acc =
  match v with
  | VMap m | VRow m => flatten Marshal m (key +:+ ".") acc
  | VArr l =>
      foldl (flatten_element Marshal key) (<[key := VString (Marshal l).1]> acc) l
  | _ => <[key := v]> acc
  end.
Proof.
  assert (Hrow : forall m lkey acc0,
    (fix flatten_row (lkey : string) (inputJSON : entries) (flattened : Row)
         {struct inputJSON} : Row :=
       match inputJSON with
       | [] => flattened
       | (rkey, value1) :: rest =>
           flatten_row lkey rest
             (flatten_value Marshal (lkey +:+ rkey) value1 flattened)
       end) lkey m acc0 = flatten Marshal m lkey acc0).
  { induction m as [|[rkey x] m IH]; intros lkey acc0; simpl; [done|]. apply IH. }
  destruct v; simpl; try done; try apply Hrow.
  generalize (<[key:=VString (Marshal l).1]> acc).
  induction l as [|sv l IH]; intros acc0; simpl; [done|].
  rewrite IH. f_equal. destruct sv; simpl; try done; apply Hrow.
Qed.

Lemma flatten_cons rkey v rest lkey acc :
  flatten Marshal ((rkey, v) :: rest) lkey acc =
  flatten Marshal rest lkey (flatten_value Marshal (lkey +:+ rkey) v acc).
Proof. done. Qed.

(** Flattening stores no mapping and no slice. *)
Lemma flatten_value_flat v : forall key acc,
  flat acc -> flat (flatten_value Marshal key v acc).
Proof.
  assert (Hrows : forall m,
    Forall (fun kv => forall key acc,
              flat acc -> flat (flatten_value Marshal key kv.2 acc)) m ->
    forall lkey acc, flat acc -> flat (flatten Marshal m lkey acc)).
  { intros m Hm. induction Hm as [|[rkey x] m Hx _ IH]; intros lkey acc Hacc; [done|].
    rewrite flatten_cons. apply IH, Hx, Hacc. }
  induction v as [| | | | |m IH|m IH|l IH] using value_ind; intros key acc Hacc;
    rewrite flatten_value_unfold;
    try (by apply map_Forall_insert_2); try (by apply Hrows).
  assert (Hins : flat (<[key:=VString (Marshal l).1]> acc))
    by by apply map_Forall_insert_2.
  revert Hins. generalize (<[key:=VString (Marshal l).1]> acc). clear Hacc acc.
  induction IH as [|sv l Hsv _ IHl]; intros acc Hacc; simpl; [done|].
  apply IHl. specialize (Hsv key acc Hacc). rewrite flatten_value_unfold in Hsv.
  destruct sv; simpl; done.
Qed.

Lemma flatten_flat m lkey acc : flat acc -> flat (flatten Marshal m lkey acc).
Proof.
  revert acc. induction m as [|[rkey x] m IH]; intros acc Hacc; [done|].
  rewrite flatten_cons. apply IH, flatten_value_flat, Hacc.
Qed.

(** On a row that is flat already, [flatten] copies the entries. *)
Lemma flatten_of_flat l acc :
  Forall (fun kv => nested kv.2 = false) l ->
  flatten Marshal l "" acc = foldl (fun acc kv => <[kv.1 := kv.2]> acc) acc l.
Proof.
  intros Hl. revert acc. induction Hl as [|[k v] l Hv _ IH]; intros acc; [done|].
  rewrite flatten_cons, IH. simpl. f_equal. rewrite flatten_value_unfold.
  simpl in Hv. by destruct v.
Qed.

Lemma foldl_insert_list_to_map (l : entries) :
  foldl (fun acc kv => <[kv.1 := kv.2]> acc) (∅ : Row) l = list_to_map (reverse l).
Proof.
  induction l as [|[k v] l IH] using rev_ind; [done|].
  rewrite foldl_snoc, IH, reverse_snoc. done.
Qed.

(** [flatten] writes under its prefix only. *)
Lemma flatten_value_other v : forall key acc k,
  ~ has_prefix key k -> flatten_value Marshal key v acc !! k = acc !! k.
Proof.
  assert (Hrows : forall m,
    Forall (fun kv => forall key acc k, ~ has_prefix key k ->
              flatten_value Marshal key kv.2 acc !! k = acc !! k) m ->
    forall lkey acc k,
      ~ has_prefix lkey k -> flatten Marshal m lkey acc !! k = acc !! k).
  { intros m Hm. induction Hm as [|[rkey x] m Hx _ IH]; intros lkey acc k Hk; [done|].
    rewrite flatten_cons, IH by done. apply Hx. intros H. by apply has_prefix_app in H. }
  assert (Hscalar : forall key (x : value) (acc : Row) k,
            ~ has_prefix key k -> <[key := x]> acc !! k = acc !! k).
  { intros key x acc k Hk. apply lookup_insert_ne. intros ->. apply Hk, has_prefix_refl. }
  induction v as [| | | | |m IH|m IH|l IH] using value_ind; intros key acc k Hk;
    rewrite flatten_value_unfold; try (by apply Hscalar).
  - apply Hrows; [done|]. intros H. by apply has_prefix_app in H.
  - apply Hrows; [done|]. intros H. by apply has_prefix_app in H.
  - rewrite <- (Hscalar key (VString (Marshal l).1) acc k Hk).
    generalize (<[key:=VString (Marshal l).1]> acc). clear acc.
    induction IH as [|sv l Hsv _ IHl]; intros acc; simpl; [done|].
    rewrite IHl. specialize (Hsv key acc k Hk). rewrite flatten_value_unfold in Hsv.
    destruct sv; simpl; done.
Qed.

Lemma flatten_other m lkey acc k :
  ~ has_prefix lkey k -> flatten Marshal m lkey acc !! k = acc !! k.
Proof.
  revert acc. induction m as [|[rkey x] m IH]; intros acc Hk; [done|].
  rewrite flatten_cons, IH by done. apply flatten_value_other.
  intros H. by apply has_prefix_app in H.
Qed.

Lemma flatten_elements_other key k l acc :
  ~ has_prefix (key +:+ ".") k ->
  foldl (flatten_element Marshal key) acc l !! k = acc !! k.
Proof.
  intros Hk. revert acc. induction l as [|sv l IH]; intros acc; simpl; [done|].
  rewrite IH. destruct sv; simpl; try done; by apply flatten_other.
Qed.

Lemma flatten_array_key key l acc :
  flatten_value Marshal key (VArr l) acc !! key = Some (VString (Marshal l).1).
Proof.
  rewrite flatten_value_unfold, flatten_elements_other by apply not_prefix_dot.
  apply lookup_insert_eq.
Qed.

Lemma flatten_array_scalars key l acc :
  Forall (fun sv => is_mapping sv = false) l ->
  flatten_value Marshal key (VArr l) acc = <[key := VString (Marshal l).1]> acc.
Proof.
  intros Hl. rewrite flatten_value_unfold.
  generalize (<[key:=VString (Marshal l).1]> acc).
  induction Hl as [|sv l Hsv _ IH]; intros acc0; simpl; [done|].
  rewrite IH. by destruct sv.
Qed.

End FlattenFacts.

Section FlattenMarshal.

Variable Marshal Marshal' : list value -> string * option error.

(** Only the bytes [Marshal] returns reach the row, never its error. *)
Lemma flatten_Marshal_ext :
  (forall v, (Marshal v).1 = (Marshal' v).1) ->
  forall v key acc, flatten_value Marshal key v acc = flatten_value Marshal' key v acc.
Proof.
  intros Hfst.
  assert (Hrows : forall m,
    Forall (fun kv => forall key acc,
              flatten_value Marshal key kv.2 acc =
              flatten_value Marshal' key kv.2 acc) m ->
    forall lkey acc, flatten Marshal m lkey acc = flatten Marshal' m lkey acc).
  { intros m Hm. induction Hm as [|[rkey x] m Hx _ IH]; intros lkey acc; [done|].
    rewrite !flatten_cons, IH. f_equal. apply Hx. }
  induction v as [| | | | |m IH|m IH|l IH] using value_ind; intros key acc;
    rewrite !flatten_value_unfold; try done; try (by apply Hrows).
  rewrite Hfst. generalize (<[key:=VString (Marshal' l).1]> acc).
  induction IH as [|sv l Hsv _ IHl]; intros acc0; simpl; [done|].
  rewrite IHl. f_equal. specialize (Hsv key acc0). rewrite !flatten_value_unfold in Hsv.
  destruct sv; simpl; done.
Qed.

Lemma flatten_Marshal_ext_row :
  (forall v, (Marshal v).1 = (Marshal' v).1) ->
  forall m lkey acc, flatten Marshal m lkey acc = flatten Marshal' m lkey acc.
Proof.
  intros Hfst m. induction m as [|[rkey x] m IH]; intros lkey acc; [done|].
  rewrite !flatten_cons, IH. f_equal. by apply flatten_Marshal_ext.
Qed.

End FlattenMarshal.


(** Elements of one slice share the prefix of the slice: the last mapping
    that holds a key wins, whether the earlier value was a scalar or the
    serialized string of a slice inside an element.  A slice stored under a
    key that an element of another slice flattens to wins or loses by the
    order in which the map holding both is ranged over. *)
Lemma flatten_array_overwrites (Marshal : list value -> string * option error) :
  (Flattener Marshal
     [("k", VArr [VMap [("x", VInt 1)]; VMap [("x", VInt 2)]])]).1 !! "k.x"
    = Some (VInt 2) /\
  (Flattener Marshal
     [("k", VArr [VMap [("x", VArr [VInt 7])]; VMap [("x", VInt 1)]])]).1 !! "k.x"
    = Some (VInt 1) /\
  (Flattener Marshal
     [("k", VArr [VMap [("x", VInt 1)]; VMap [("x", VArr [VInt 7])]])]).1 !! "k.x"
    = Some (VString (Marshal [VInt 7]).1) /\
  (Flattener Marshal
     [("k", VArr [VMap [("x", VInt 1)]]); ("k.x", VArr [VInt 7])]).1 !! "k.x"
    = Some (VString (Marshal [VInt 7]).1) /\
  (Flattener Marshal
     [("k.x", VArr [VInt 7]); ("k", VArr [VMap [("x", VInt 1)]])]).1 !! "k.x"
    = Some (VInt 1).
Proof. repeat split; vm_compute; reflexivity. Qed.

(** The elements of a slice are not flattened under the prefix of the
    slice, and they neither overwrite the serialized string of the slice nor
    are overwritten by it.  The document [{k: [{x: 1}], x: 9}] flattens, in
    both orders of its two entries, to the three entries [k], [k.x] and [x]:
    the key of the element is [k.x], not the [x] that the prefix of the slice
    would give and that would meet the entry [x] of the document, and [k]
    holds the text of the slice.  No slice has an element that takes its
    key. *)
Lemma flatten_array_entry_stays :
  (Flattener jsonMarshal [("k", VArr [VMap [("x", VInt 1)]]); ("x", VInt 9)]).1 =
    {[ "k" := VString ("[{" +:+ Json.quote "x" +:+ ":1}]");
       "k.x" := VInt 1; "x" := VInt 9 ]} /\
  (Flattener jsonMarshal [("x", VInt 9); ("k", VArr [VMap [("x", VInt 1)]])]).1 =
    {[ "k" := VString ("[{" +:+ Json.quote "x" +:+ ":1}]");
       "k.x" := VInt 1; "x" := VInt 9 ]} /\
  ~ (exists (Marshal : list value -> string * option error) key l acc,
       flatten_value Marshal key (VArr l) acc !! key <> Some (VString (Marshal l).1)).
Proof.
  split; [vm_compute; reflexivity|]. split; [vm_compute; reflexivity|].
  intros (Marshal & key & l & acc & H). apply H, flatten_array_key.
Qed.

(** C7.  For a slice met under [key], [flatten] stores the serialized
    string of the slice under [key] itself and then flattens, in order, every
    element that is a mapping under the prefix [key + "."], the prefix a
    nested mapping at [key] would get: besides [key], only keys that start
    with [key + "."] change.  A slice none of whose elements is a mapping
    contributes the entry at [key] alone.  The keys of the elements are
    longer than [key], so the entry of the slice itself stays; what the
    elements overwrite, or are overwritten by, are one another and the
    serialized strings of other slices flattened to the same key, by the
    order of the elements and of the maps ranged over. *)
Theorem flatten_array (Marshal : list value -> string * option error)
    (key : string) (l : list value) (acc : Row) :
  flatten_value Marshal key (VArr l) acc =
    foldl (flatten_element Marshal key) (<[key := VString (Marshal l).1]> acc) l /\
  flatten_value Marshal key (VArr l) acc !! key = Some (VString (Marshal l).1) /\
  (forall k, k <> key -> ~ has_prefix (key +:+ ".") k ->
             flatten_value Marshal key (VArr l) acc !! k = acc !! k) /\
  (Forall (fun sv => is_mapping sv = false) l ->
   flatten_value Marshal key (VArr l) acc = <[key := VString (Marshal l).1]> acc) /\
  (Flattener Marshal
     [("k", VArr [VMap [("x", VInt 1)]; VMap [("x", VInt 2)]])]).1 !! "k.x"
    = Some (VInt 2) /\
  (Flattener Marshal
     [("k", VArr [VMap [("x", VArr [VInt 7])]; VMap [("x", VInt 1)]])]).1 !! "k.x"
    = Some (VInt 1) /\
  (Flattener Marshal
     [("k", VArr [VMap [("x", VInt 1)]; VMap [("x", VArr [VInt 7])]])]).1 !! "k.x"
    = Some (VString (Marshal [VInt 7]).1) /\
  (Flattener Marshal
     [("k", VArr [VMap [("x", VInt 1)]]); ("k.x", VArr [VInt 7])]).1 !! "k.x"
    = Some (VString (Marshal [VInt 7]).1) /\
  (Flattener Marshal
     [("k.x", VArr [VInt 7]); ("k", VArr [VMap [("x", VInt 1)]])]).1 !! "k.x"
    = Some (VInt 1).
Proof.
  split; [apply flatten_value_unfold|].
  split; [apply flatten_array_key|].
  split.
  { intros k Hk Hpre. rewrite flatten_value_unfold, flatten_elements_other by done.
    by apply lookup_insert_ne. }
  split; [apply flatten_array_scalars|].
  apply flatten_array_overwrites.
Qed.

(** The slice [[1, "a", null, [2]]] under the key [tags], and its text. *)
Lemma flatten_array_witness :
  Forall (fun sv => is_mapping sv = false)
         [VInt 1; VString "a"; VNil; VArr [VInt 2]] /\
  (Flattener jsonMarshal
     [("tags", VArr [VInt 1; VString "a"; VNil; VArr [VInt 2]])]).1 =
  {[ "tags" := VString ("[1," +:+ Json.quote "a" +:+ ",null,[2]]") ]}.
Proof.
  assert (H : Forall (fun sv => is_mapping sv = false)
                     [VInt 1; VString "a"; VNil; VArr [VInt 2]])
    by (repeat constructor).
  split; [exact H|].
  assert (Htext : (jsonMarshal [VInt 1; VString "a"; VNil; VArr [VInt 2]]).1 =
                  "[1," +:+ Json.quote "a" +:+ ",null,[2]]") by (vm_compute; reflexivity).
  rewrite <- Htext.
  exact (proj1 (proj2 (proj2 (proj2
    (flatten_array jsonMarshal "tags" [VInt 1; VString "a"; VNil; VArr [VInt 2]] ∅)))) H).
Defined.

(** C8.  Flattening is idempotent: in whatever order the row [Flattener]
    returned is ranged over, flattening it again returns the same row. *)
Theorem flatten_idempotent (Marshal : list value -> string * option error)
    (r l : entries) :
  l ≡ₚ map_to_list (Flattener Marshal r).1 ->
  Flattener Marshal l = Flattener Marshal r.
Proof.
  intros Hl. unfold Flattener in *. simpl in *. f_equal.
  set (m := flatten Marshal r "" ∅) in *.
  assert (Hm : flat m) by (apply flatten_flat; apply map_Forall_empty).
  rewrite flatten_of_flat, foldl_insert_list_to_map.
  - rewrite <- (list_to_map_to_list m). apply list_to_map_proper.
    + rewrite reverse_Permutation, Hl. apply NoDup_fst_map_to_list.
    + by rewrite reverse_Permutation.
  - rewrite Hl. apply map_Forall_to_list in Hm.
    eapply Forall_impl; [apply Hm|]. by intros [k v].
Qed.

(** The scenario's document, and its flattened row ranged over in the order
    [a.b], [a.c]. *)
Lemma flatten_idempotent_witness :
  [("a.b", VInt 5); ("a.c", VInt 0)]
    ≡ₚ map_to_list (Flattener jsonMarshal scenarioRow).1 /\
  Flattener jsonMarshal [("a.b", VInt 5); ("a.c", VInt 0)] =
  Flattener jsonMarshal scenarioRow.
Proof.
  assert (H : [("a.b", VInt 5); ("a.c", VInt 0)]
                ≡ₚ map_to_list (Flattener jsonMarshal scenarioRow).1)
    by (vm_compute; apply perm_swap).
  split; [exact H|].
  exact (flatten_idempotent jsonMarshal scenarioRow
           [("a.b", VInt 5); ("a.c", VInt 0)] H).
Defined.

(** C10.  [Flattener] returns for every row, and the error it returns is
    nil.  What [json.Marshal] reports as its error never reaches the result:
    two encoders that return the same bytes give the same row, and the key of
    a slice holds the string made of the returned bytes. *)
Theorem Flattener_never_fails (Marshal Marshal' : list value -> string * option error)
    (r : entries) (key : string) (l : list value) (acc : Row) :
  Flattener Marshal r = (flatten Marshal r "" ∅, None) /\
  (Flattener Marshal r).2 = None /\
  ((forall v, (Marshal v).1 = (Marshal' v).1) ->
   Flattener Marshal r = Flattener Marshal' r) /\
  flatten_value Marshal key (VArr l) acc !! key = Some (VString (Marshal l).1).
Proof.
  split; [done|]. split; [done|]. split; [|apply flatten_array_key].
  intros Hfst. unfold Flattener. f_equal. by apply flatten_Marshal_ext_row.
Qed.

(** A slice holding a NaN: the encoder returns no bytes and an error, and
    the row gets the empty string and no error. *)
Lemma Flattener_never_fails_witness :
  jsonMarshal [NaN] = ("", Some "json: unsupported value: NaN") /\
  Flattener jsonMarshal [("score", VArr [NaN])] = ({[ "score" := VString "" ]}, None).
Proof.
  split; [vm_compute; reflexivity|].
  destruct (Flattener_never_fails jsonMarshal (fun v => ((jsonMarshal v).1, None))
              [("score", VArr [NaN])] "score" [NaN] ∅) as (_ & _ & Hsame & _).
  rewrite Hsame by reflexivity. vm_compute. reflexivity.
Defined.

(** ** The existential transformer *)

Lemma pii_sources_cons f fields :
  pii_sources (f :: fields) =
  if Field.PII f then Field.Source f :: pii_sources fields else pii_sources fields.
Proof.
  unfold pii_sources. rewrite filter_cons.
  case_decide as H; destruct (Field.PII f); done.
Qed.

(** When the loop returns, every sensitive path holds the boolean of what
    the row held there, and every other path what it held. *)
Lemma existential_spec fields : forall (r r' : Row),
  existential fields r = Returns r' ->
  forall k,
    (k ∈ pii_sources fields ->
     exists b, exists_nonzero (r !! k) = Some b /\ r' !! k = Some (VBool b)) /\
    (k ∉ pii_sources fields -> r' !! k = r !! k).
Proof.
  induction fields as [|f fields IH]; intros r r' Hex k.
  - simpl in Hex. simplify_eq. split; [|done]. intros H. by apply elem_of_nil in H.
  - simpl in Hex. rewrite pii_sources_cons. destruct (Field.PII f); [|by apply IH].
    set (k0 := Field.Source f) in *.
    assert (Hstep : exists b, exists_nonzero (r !! k0) = Some b /\
                      existential fields (<[k0 := VBool b]> r) = Returns r').
    { unfold exists_nonzero. destruct (r !! k0) as [val|]; [|by eexists].
      destruct (IsZeroOfUnderlyingType val); [|done]. by eexists. }
    destruct Hstep as (b & Hb & Hrest). clear Hex.
    destruct (IH _ _ Hrest k) as [Hin Hout].
    destruct (decide (k = k0)) as [->|Hne].
    + split; [|intros H; exfalso; apply H; left].
      intros _. exists b. split; [done|].
      destruct (decide (k0 ∈ pii_sources fields)) as [H|H].
      * destruct (Hin H) as (b' & Hb' & ->). rewrite lookup_insert_eq in Hb'.
        simpl in Hb'. rewrite negb_involutive in Hb'. congruence.
      * rewrite (Hout H). apply lookup_insert_eq.
    + rewrite lookup_insert_ne in Hin, Hout by done.
      split.
      * intros H. apply elem_of_cons in H as [?|H]; [done|]. by apply Hin.
      * intros H. apply Hout. intros H'. apply H. by right.
Qed.

(** The loop returns on every row that holds no nil at a sensitive path. *)
Lemma existential_returns fields : forall (r : Row),
  (forall k, k ∈ pii_sources fields -> r !! k <> Some VNil) ->
  exists r', existential fields r = Returns r'.
Proof.
  induction fields as [|f fields IH]; intros r Hr; simpl; [by eexists|].
  rewrite pii_sources_cons in Hr. destruct (Field.PII f); [|by apply IH].
  assert (Hnext : forall b k, k ∈ pii_sources fields ->
            <[Field.Source f := VBool b]> r !! k <> Some VNil).
  { intros b k Hk. destruct (decide (k = Field.Source f)) as [->|Hne].
    - by rewrite lookup_insert_eq.
    - rewrite lookup_insert_ne by done. apply Hr. by right. }
  destruct (r !! Field.Source f) as [val|] eqn:Hval; [|by apply IH, Hnext].
  destruct val; simpl; try (by apply IH, Hnext).
  exfalso. apply (Hr (Field.Source f)); [by left|done].
Qed.

(** It panics only on a nil at a sensitive path. *)
Lemma existential_panics fields : forall (r : Row) msg,
  existential fields r = Panics msg ->
  exists k, k ∈ pii_sources fields /\ r !! k = Some VNil.
Proof.
  induction fields as [|f fields IH]; intros r msg Hex; simpl in Hex; [done|].
  rewrite pii_sources_cons. destruct (Field.PII f).
  2:{ destruct (IH _ _ Hex) as (k & ? & ?). eauto. }
  assert (Hnext : forall b,
            existential fields (<[Field.Source f := VBool b]> r) = Panics msg ->
            exists k, k ∈ Field.Source f :: pii_sources fields /\ r !! k = Some VNil).
  { intros b Hb. destruct (IH _ _ Hb) as (k & Hk & Hnil).
    exists k. split; [by right|]. destruct (decide (k = Field.Source f)) as [->|Hne].
    - by rewrite lookup_insert_eq in Hnil.
    - by rewrite lookup_insert_ne in Hnil. }
  destruct (r !! Field.Source f) as [val|] eqn:Hval; [|by eapply Hnext].
  destruct val; simpl in Hex; try (by eapply Hnext).
  exists (Field.Source f). split; [by left|done].
Qed.

(** The existential transformer on rows without a nil at a sensitive path:
    a sensitive path comes out as [false] when the row has nothing there or
    the zero of the value's type, as [true] otherwise; the other paths are
    left as they are. *)
Lemma existential_masks (t : Table.t) (r : Row) :
  (forall k, k ∈ pii_sources (Table.Fields t) -> r !! k <> Some VNil) ->
  exists r',
    GetExistentialTransformerFn t r = Returns (r', None) /\
    forall k,
      (k ∈ pii_sources (Table.Fields t) ->
       exists b, exists_nonzero (r !! k) = Some b /\ r' !! k = Some (VBool b)) /\
      (k ∉ pii_sources (Table.Fields t) -> r' !! k = r !! k).
Proof.
  intros Hr. destruct (existential_returns _ _ Hr) as [r' Hr'].
  exists r'. unfold GetExistentialTransformerFn. rewrite Hr'. split; [done|].
  by apply existential_spec.
Qed.

(** C4.  On the document [{a: {b: 5, c: null}}], whose sensitive field
    [a.c] is present and null, the existential transformer does not write a
    boolean: [reflect.Zero] panics on the nil type, and so does the chain of
    [exportData]. *)
Theorem existential_panics_on_null :
  (Flattener jsonMarshal nullRow).1 = {[ "a.b" := VInt 5; "a.c" := VNil ]} /\
  GetExistentialTransformerFn scenarioTable (Flattener jsonMarshal nullRow).1 =
    Panics "reflect: Zero(nil)" /\
  exportChain jsonMarshal scenarioTable scenarioTimestamp nullRow 0 =
    Panics "reflect: Zero(nil)".
Proof. repeat split; vm_compute; reflexivity. Qed.

(** ** The chain of exportData *)

Section ExportFacts.

Variable Marshal : list value -> string * option error.
Variable table : Table.t.
Variable timestamp : string.

(** The chain, stage by stage. *)
Lemma exportChain_stages d n :
  exportChain Marshal table timestamp d n =
  match GetExistentialTransformerFn table (Flattener Marshal d).1 with
  | Panics msg => Panics msg
  | Returns (r, _) =>
      Returns
        (inr (GetPopulateDateFn (Meta.DataDateColumn (Table.Meta table)) timestamp
                (Optimus.Fieldmap (FieldMap table) r).1).1,
         wrap64 (n + 1))
  end.
Proof.
  unfold exportChain, Optimus.Map, Optimus.func, Optimus.func_panics, Optimus.New.
  simpl. unfold GetExistentialTransformerFn.
  destruct (existential _ _); done.
Qed.

Lemma exportChain_count d n x n' :
  exportChain Marshal table timestamp d n = Returns (x, n') ->
  n' = wrap64 (n + 1) /\ exists r, x = inr r.
Proof.
  rewrite exportChain_stages.
  destruct (GetExistentialTransformerFn _ _) as [[r e]|]; [|done].
  intros [= <- <-]. eauto.
Qed.

End ExportFacts.

(** C3.  The chain of [exportData] is Flatten, then the existential
    transformer, then the field map over [table.FieldMap()], then the date
    stamp, then the count, in this order.  On the scenario ([a.b] to [x],
    sensitive [a.c] to [y], document [{a: {b: 5, c: 0}}], date column
    [_data_timestamp]) the stages give in turn [{a.b: 5, a.c: 0}],
    [{a.b: 5, a.c: false}], [{x: 5, y: false}] and the row
    [{x: 5, y: false, _data_timestamp: 2024-01-01T00:00:00Z}], which is what
    the sink receives, and the count is one. *)
Theorem exportData_stages (Marshal : list value -> string * option error)
    (table : Table.t) (timestamp : string) (d : entries) (n : Z) :
  exportChain Marshal table timestamp d n =
    match GetExistentialTransformerFn table (Flattener Marshal d).1 with
    | Panics msg => Panics msg
    | Returns (r, _) =>
        Returns
          (inr (GetPopulateDateFn (Meta.DataDateColumn (Table.Meta table)) timestamp
                  (Optimus.Fieldmap (FieldMap table) r).1).1,
           wrap64 (n + 1))
    end /\
  Flattener Marshal scenarioRow =
    ({[ "a.b" := VInt 5; "a.c" := VInt 0 ]}, None) /\
  Flattener Marshal [("a", VMap [("c", VInt 0); ("b", VInt 5)])] =
    ({[ "a.b" := VInt 5; "a.c" := VInt 0 ]}, None) /\
  GetExistentialTransformerFn scenarioTable {[ "a.b" := VInt 5; "a.c" := VInt 0 ]} =
    Returns ({[ "a.b" := VInt 5; "a.c" := VBool false ]}, None) /\
  Optimus.Fieldmap (FieldMap scenarioTable)
      {[ "a.b" := VInt 5; "a.c" := VBool false ]} =
    ({[ "x" := VInt 5; "y" := VBool false ]}, None) /\
  GetPopulateDateFn "_data_timestamp" scenarioTimestamp
      {[ "x" := VInt 5; "y" := VBool false ]} =
    ({[ "x" := VInt 5; "y" := VBool false;
        "_data_timestamp" := VString "2024-01-01T00:00:00Z" ]}, None) /\
  exportData Marshal [scenarioRow] None scenarioTable (fun _ => None)
      scenarioTimestamp =
    Returns ((1, None),
             [ {[ "x" := VInt 5; "y" := VBool false;
                  "_data_timestamp" := VString "2024-01-01T00:00:00Z" ]} ]).
Proof.
  split; [apply exportChain_stages|].
  repeat split; vm_compute; reflexivity.
Qed.

(** ** Object names *)

Section FilenameFacts.

Variable ParseRFC3339 : string -> Time.t * option error.

Lemma formatFilename_parts timestamp collectionName fileIndex extension :
  formatFilename ParseRFC3339 timestamp collectionName fileIndex extension =
  "mongo/" +:+ collectionName +:+
  "/_data_timestamp_year=" +:+ fmt02d (Time.Year (ParseRFC3339 timestamp).1) +:+
  "/_data_timestamp_month=" +:+ fmt02d (Time.Month (ParseRFC3339 timestamp).1) +:+
  "/_data_timestamp_day=" +:+ fmt02d (Time.Day (ParseRFC3339 timestamp).1) +:+
  "/mongo_" +:+ collectionName +:+ "_" +:+ timestamp +:+
  (if decide (fileIndex = "") then "" else "_" +:+ fileIndex) +:+ extension.
Proof.
  unfold formatFilename. rewrite !string_app_assoc.
  by destruct (decide (fileIndex = "")) as [->|].
Qed.

End FilenameFacts.

(** The first shard of the table [students]: its name starts with
    [mongo/], which the pattern [<collection>/...] does not allow. *)
Lemma formatFilename_starts_with_mongo :
  formatFilename Time.ParseRFC3339 "2024-01-01T00:00:00Z" "students" "0" ".json.gz" =
    "mongo/students/_data_timestamp_year=2024/_data_timestamp_month=01/_data_timestamp_day=01/mongo_students_2024-01-01T00:00:00Z_0.json.gz" /\
  formatFilename Time.ParseRFC3339 "2024-01-01T00:00:00Z" "students" "0" ".json.gz" <>
    "students/_data_timestamp_year=2024/_data_timestamp_month=01/_data_timestamp_day=01/mongo_students_2024-01-01T00:00:00Z_0.json.gz".
Proof. split; [vm_compute; reflexivity|]. vm_compute. discriminate. Qed.

(** C6.  The name [formatFilename] gives is
    [mongo/<dest>/_data_timestamp_year=Y/_data_timestamp_month=M/_data_timestamp_day=D/mongo_<dest>_<timestamp>[_<fileIndex>]<extension>]:
    it starts with [mongo/], the directory and the file carry the same name
    (the destination of the table in [main]), [Y], [M], [D] are the year,
    month and day of the time [time.Parse] returns for the timestamp, written
    with [%02d], and the suffix [_<fileIndex>] is there exactly when the index
    is not empty.  The shards of a run are named with their indices
    [0 .. numFiles-1] and the extension [.json.gz]. *)
Theorem formatFilename_pattern (ParseRFC3339 : string -> Time.t * option error)
    (timestamp collectionName fileIndex : string)
    (sourceTable : Table.t) (docs : list entries) (numFiles : nat) :
  formatFilename ParseRFC3339 timestamp collectionName fileIndex ".json.gz" =
    "mongo/" +:+ collectionName +:+
    "/_data_timestamp_year=" +:+ fmt02d (Time.Year (ParseRFC3339 timestamp).1) +:+
    "/_data_timestamp_month=" +:+ fmt02d (Time.Month (ParseRFC3339 timestamp).1) +:+
    "/_data_timestamp_day=" +:+ fmt02d (Time.Day (ParseRFC3339 timestamp).1) +:+
    "/mongo_" +:+ collectionName +:+ "_" +:+ timestamp +:+
    (if decide (fileIndex = "") then "" else "_" +:+ fileIndex) +:+ ".json.gz" /\
  outputName <$> shards (init ParseRFC3339 sourceTable timestamp docs numFiles) =
    (fun i : nat =>
       formatFilename ParseRFC3339 timestamp (Table.Destination sourceTable)
         (pretty (Z.of_nat i)) ".json.gz") <$> seq 0 numFiles.
Proof.
  split; [apply formatFilename_parts|].
  simpl. by rewrite <- list_fmap_compose.
Qed.

(** ** The run *)

Lemma wrap64_add_l a b : wrap64 (wrap64 a + b) = wrap64 (a + b).
Proof.
  unfold wrap64. f_equal.
  replace ((a + 2 ^ 63) mod 2 ^ 64 - 2 ^ 63 + b + 2 ^ 63) with ((a + 2 ^ 63) mod 2 ^ 64 + b) by lia.
  rewrite Zplus_mod_idemp_l. f_equal. lia.
Qed.

Lemma wrap64_add_r a b : wrap64 (a + wrap64 b) = wrap64 (a + b).
Proof. rewrite Z.add_comm, wrap64_add_l. f_equal. lia. Qed.


(** What [exportData] returns when neither the source nor the sink fails:
    the number of rows it received, which is the number of rows written. *)
Lemma Sink_count (Marshal : list value -> string * option error)
    (table : Table.t) (timestamp : string) (write : Row -> option error)
    source n0 w0 err n w :
  (forall r, write r = None) ->
  Optimus.Sink (exportChain Marshal table timestamp) write source None n0 w0 =
    Returns (err, n, w) ->
  err = None /\
  length w = (length w0 + length source)%nat /\
  n = match source with
      | [] => n0
      | _ :: _ => wrap64 (n0 + Z.of_nat (length source))
      end.
Proof.
  intros Hwrite. revert n0 w0.
  induction source as [|d source IH]; intros n0 w0 Hsink; simpl in Hsink.
  - simplify_eq. by rewrite Nat.add_0_r.
  - destruct (exportChain _ _ _ d n0) as [[[e|r] n1]|msg] eqn:Hchain; [| |done].
    { apply exportChain_count in Hchain as [_ [r' ?]]. done. }
    apply exportChain_count in Hchain as [-> _].
    rewrite Hwrite in Hsink. apply IH in Hsink as (-> & Hw & Hn).
    split; [done|]. rewrite Hw, length_app. simpl. split; [lia|].
    rewrite Hn. destruct source as [|d' source]; [done|].
    rewrite wrap64_add_l. f_equal. cbn [length]. lia.
Qed.

Lemma exportData_count (Marshal : list value -> string * option error)
    (table : Table.t) (timestamp : string) source n err w :
  exportData Marshal source None table (fun _ => None) timestamp =
    Returns ((n, err), w) ->
  err = None /\ n = wrap64 (Z.of_nat (length source)) /\ length w = length source.
Proof.
  unfold exportData.
  destruct (Optimus.Sink _ _ _ _ _ _) as [[[err' n'] w']|] eqn:Hsink; [|done].
  intros [= -> -> ->].
  apply Sink_count in Hsink as (-> & Hw & Hn); [|done].
  split; [done|]. split; [|done].
  rewrite Hn. by destruct source.
Qed.







Section RunFacts.
Variable Marshal : list value -> string * option error.
Variable ParseRFC3339 : string -> Time.t * option error.
Variable formatFloat : Z -> string.
Variable bucket : string.
Variable sourceTable : Table.t.
Variable timestamp : string.
Variable err : option error.

Local Abbreviation step := (step Marshal ParseRFC3339 formatFloat bucket sourceTable timestamp err).
Local Abbreviation exec := (exec Marshal ParseRFC3339 formatFloat bucket sourceTable timestamp err).
Local Abbreviation init := (init ParseRFC3339 sourceTable timestamp).
Local Abbreviation reconcile := (reconcile ParseRFC3339 formatFloat bucket sourceTable timestamp).


(** The invariant holds when the spawning loop has ended. *)
Lemma init_consistent docs numFiles : consistent docs (init docs numFiles).
Proof.
  assert (Hsum : forall f : shard -> Z,
    (forall name, f {| outputName := name; received := []; rows := 0; written := [];
                       exporter := Exporting; uploader := Uploading |} = 0) ->
    Zsum f (shards (init docs numFiles)) = 0).
  { intros f Hf. simpl. generalize 0%nat.
    induction numFiles as [|n IH]; intros k; simpl; [done|]. by rewrite IH, Hf. }
  split; try (apply Forall_fmap, Forall_forall; done).
  - by rewrite Hsum.
  - done.
  - by rewrite Hsum.
  - rewrite Hsum by done. unfold in_callback. simpl. lia.
Qed.






(** So does the invariant of the shards: each count is what [exportData]
    returns on the rows received. *)
Lemma init_returned docs numFiles :
  Forall (returned Marshal sourceTable timestamp) (shards (init docs numFiles)).
Proof. apply Forall_fmap, Forall_forall. done. Qed.



Lemma step_running a s s' : step a s = Some s' -> st s = Running.
Proof. unfold step. by destruct (st s). Qed.




















End RunFacts.

(** ** The manifest *)

Section ManifestFacts.

Variable formatFloat : Z -> string.

Lemma entry_of_value url :
  Json.of_value formatFloat (VMap [("url", VString url); ("mandatory", VBool true)]) =
  inr (entry_document url).
Proof. reflexivity. Qed.

Lemma array_of_documents (l : list Json.t) :
  Json.array_of (inr <$> l) = inr (Json.JArray l).
Proof.
  unfold Json.array_of.
  assert (H : Json.first_error ((fun x : Json.encoded => (tt, x)) <$> (inr <$> l)) = None /\
              (Json.documents ((fun x : Json.encoded => (tt, x)) <$> (inr <$> l))).*2 = l).
  { unfold Json.first_error, Json.documents. induction l as [|j l [IH1 IH2]]; [done|].
    simpl in *. split; [done|]. by f_equal. }
  destruct H as [-> ->]. done.
Qed.

Lemma foldl_append {A B} (g : B -> A) (l : list B) (acc : option (list A)) :
  foldl (fun entryArray fn => append entryArray (g fn)) acc l =
  match l with [] => acc | _ :: _ => Some (default [] acc ++ (g <$> l)) end.
Proof.
  revert acc. induction l as [|x l IH]; intros acc; [done|].
  simpl. rewrite IH. destruct l as [|y l]; [done|].
  unfold append at 1. simpl. by rewrite <- app_assoc.
Qed.

Lemma createManifest_nonempty bucket fn fns :
  createManifest formatFloat bucket (fn :: fns) =
  (Json.render
     (Json.JObject
        [("entries",
          Json.JArray ((fun f => entry_document ("s3://" +:+ bucket +:+ "/" +:+ f))
                         <$> (fn :: fns)))]),
   None).
Proof.
  unfold createManifest. rewrite foldl_append. unfold MarshalManifest.
  cbn [Entries default app]. rewrite <- list_fmap_compose.
  generalize (fn :: fns). intros l.
  assert (Heq :
    (fun e : entries => Json.of_value formatFloat (VMap e))
      ∘ (fun fn0 : string =>
           [("url", VString ("s3://" +:+ bucket +:+ "/" +:+ fn0));
            ("mandatory", VBool true)]) <$> l =
    inr <$> ((fun f => entry_document ("s3://" +:+ bucket +:+ "/" +:+ f)) <$> l)).
  { induction l as [|x l IH]; [done|]. rewrite !fmap_cons, IH. f_equal. }
  rewrite Heq, array_of_documents. done.
Qed.

Lemma createManifest_empty bucket :
  createManifest formatFloat bucket [] =
  (Json.render (Json.JObject [("entries", Json.JNull)]), None).
Proof. reflexivity. Qed.

End ManifestFacts.

(** ** The claims on the fan-out *)

Section RunClaims.

Variable Marshal : list value -> string * option error.
Variable ParseRFC3339 : string -> Time.t * option error.
Variable formatFloat : Z -> string.
Variable bucket : string.
Variable sourceTable : Table.t.
Variable timestamp : string.
Variable err : option error.

Local Abbreviation step := (step Marshal ParseRFC3339 formatFloat bucket sourceTable timestamp err).
Local Abbreviation exec := (exec Marshal ParseRFC3339 formatFloat bucket sourceTable timestamp err).
Local Abbreviation init := (init ParseRFC3339 sourceTable timestamp).
Local Abbreviation reconcile := (reconcile ParseRFC3339 formatFloat bucket sourceTable timestamp).

Lemma step_names a s s' :
  step a s = Some s' -> outputName <$> shards s' = outputName <$> shards s.
Proof.
  intros Hstep. pose proof (step_running _ _ _ _ _ _ _ _ _ _ Hstep) as Hrun.
  unfold Main.step in Hstep. rewrite Hrun in Hstep. unfold Main.reconcile in Hstep.
  destruct a; repeat case_match; simplify_eq; simpl; try done;
    rewrite list_fmap_insert; simpl; apply list_insert_id;
    rewrite list_lookup_fmap; by match goal with H : _ !! _ = Some _ |- _ => rewrite H end.
Qed.

Lemma exec_names sched s s' :
  exec sched s = Some s' -> outputName <$> shards s' = outputName <$> shards s.
Proof.
  revert s. induction sched as [|a sched IH]; intros s Hexec; simpl in Hexec.
  - by simplify_eq.
  - destruct (step a s) as [s1|] eqn:Hstep; [|done].
    rewrite (IH _ Hexec). by eapply step_names.
Qed.

Lemma reconcile_uploads s e :
  st (reconcile s e) = Published ->
  uploaded (reconcile s e) =
  uploaded s ++
  [ManifestObject
     (formatFilename ParseRFC3339 timestamp (Table.Destination sourceTable) "" ".manifest")
     (createManifest formatFloat bucket (outputName <$> shards s)).1].
Proof.
  unfold Main.reconcile. destruct (decide _); [done|].
  destruct (createManifest _ _ _) as [body [err'|]]; [done|].
  by destruct e.
Qed.





(** C5.  For a list of at least one file name the body
    [createManifest] returns is the text of [{entries: [...]}] with one entry
    per name, in the order of the list, each with [mandatory: true] and the
    url [s3://<bucket>/<name>] (the encoder writes the two members in the
    order of their keys); for the empty list it is [{entries: null}].  The
    manifest a run publishes is stored under
    [mongo/<dest>/_data_timestamp_year=../_data_timestamp_month=../_data_timestamp_day=../mongo_<dest>_<timestamp>.manifest]
    and lists the shards in the order of their indices. *)
Theorem createManifest_entries :
  (forall fn fns,
     createManifest formatFloat bucket (fn :: fns) =
     (Json.render
        (Json.JObject
           [("entries",
             Json.JArray
               ((fun f =>
                   Json.JObject
                     [("mandatory", Json.JBool true);
                      ("url", Json.JString ("s3://" +:+ bucket +:+ "/" +:+ f))])
                  <$> (fn :: fns)))]),
      None)) /\
  createManifest formatFloat bucket [] =
    (Json.render (Json.JObject [("entries", Json.JNull)]), None) /\
  (forall docs numFiles sched s e,
     exec sched (init docs numFiles) = Some s ->
     st (reconcile s e) = Published ->
     uploaded (reconcile s e) =
     uploaded s ++
     [ManifestObject
        ("mongo/" +:+ Table.Destination sourceTable +:+
         "/_data_timestamp_year=" +:+ fmt02d (Time.Year (ParseRFC3339 timestamp).1) +:+
         "/_data_timestamp_month=" +:+ fmt02d (Time.Month (ParseRFC3339 timestamp).1) +:+
         "/_data_timestamp_day=" +:+ fmt02d (Time.Day (ParseRFC3339 timestamp).1) +:+
         "/mongo_" +:+ Table.Destination sourceTable +:+ "_" +:+ timestamp +:+
         ".manifest")
        (createManifest formatFloat bucket
           ((fun i : nat =>
               formatFilename ParseRFC3339 timestamp (Table.Destination sourceTable)
                 (pretty (Z.of_nat i)) ".json.gz") <$> seq 0 numFiles)).1]).
Proof.
  split; [apply createManifest_nonempty|]. split; [apply createManifest_empty|].
  intros docs numFiles sched s e Hexec Hpub.
  rewrite (reconcile_uploads _ _ Hpub), (exec_names _ _ _ Hexec).
  rewrite formatFilename_parts. simpl. by rewrite <- list_fmap_compose.
Qed.


End RunClaims.

(** ** The scenario *)





(** With no file name the member [entries] is [null], not a list; and the
    manifest of the table [students] is stored under a directory, not under
    its bare name. *)
Lemma createManifest_no_files :
  createManifest noFloatText "clever-analytics" [] =
    ("{" +:+ Json.quote "entries" +:+ ":null}", None) /\
  formatFilename Time.ParseRFC3339 "2024-01-01T00:00:00Z" "students" "" ".manifest" =
    "mongo/students/_data_timestamp_year=2024/_data_timestamp_month=01/_data_timestamp_day=01/mongo_students_2024-01-01T00:00:00Z.manifest".
Proof. split; vm_compute; reflexivity. Qed.

(** The manifest of the scenario run. *)
Lemma createManifest_entries_witness :
  exists s,
    scenarioExec scenarioToBarrier scenarioInit = Some s /\
    st (reconcile Time.ParseRFC3339 noFloatText "clever-analytics" scenarioTable
          scenarioTimestamp s None) = Published /\
    uploaded (reconcile Time.ParseRFC3339 noFloatText "clever-analytics" scenarioTable
                scenarioTimestamp s None) =
    uploaded s ++
    [ManifestObject
       "mongo/students/_data_timestamp_year=2024/_data_timestamp_month=01/_data_timestamp_day=01/mongo_students_2024-01-01T00:00:00Z.manifest"
       ("{" +:+ Json.quote "entries" +:+ ":[" +:+
        entryText ("s3://clever-analytics/" +:+ scenarioShard "0") +:+ "," +:+
        entryText ("s3://clever-analytics/" +:+ scenarioShard "1") +:+ "]}")].
Proof.
  assert (Hs : exists s, scenarioExec scenarioToBarrier scenarioInit = Some s /\
    st (reconcile Time.ParseRFC3339 noFloatText "clever-analytics" scenarioTable
          scenarioTimestamp s None) = Published).
  { eexists. split; [vm_compute; reflexivity|]. vm_compute. reflexivity. }
  destruct Hs as (s & Hs & Hpub). exists s. split; [exact Hs|]. split; [exact Hpub|].
  rewrite (proj2 (proj2 (createManifest_entries jsonMarshal Time.ParseRFC3339
                           noFloatText "clever-analytics" scenarioTable
                           scenarioTimestamp None))
             scenarioDocs 2%nat scenarioToBarrier s None Hs Hpub).
  f_equal.
Defined.




(** * Further properties of the code *)

(** ** Flatten, key by key *)

Section FlattenLeaves.

Variable Marshal : list value -> string * option error.

Lemma is_mapping_members sv :
  is_mapping sv = true -> exists m, members sv = Some m.
Proof. destruct sv; simpl; try done; eauto. Qed.

Lemma flatten_element_mapping key acc sv m :
  members sv = Some m ->
  flatten_element Marshal key acc sv = flatten Marshal m (key +:+ ".") acc.
Proof. destruct sv; simpl; intros; simplify_eq; done. Qed.

Lemma flatten_element_scalar key acc sv :
  is_mapping sv = false -> flatten_element Marshal key acc sv = acc.
Proof. by destruct sv. Qed.

Lemma flatten_value_mapping key v m acc :
  members v = Some m ->
  flatten_value Marshal key v acc = flatten Marshal m (key +:+ ".") acc.
Proof. rewrite flatten_value_unfold. destruct v; simpl; intros; simplify_eq; done. Qed.

Lemma flatten_sound_rows m :
  Forall (fun kv => assigns_leaves Marshal kv.2) m ->
  forall lkey acc k x,
    flatten Marshal m lkey acc !! k = Some x ->
    acc !! k = Some x \/ doc_leaf Marshal lkey m k x.
Proof.
  intros Hm. induction Hm as [|[rkey v] m Hv _ IH]; intros lkey acc k x Hk.
  - by left.
  - rewrite flatten_cons in Hk. apply IH in Hk as [Hk|(rk & v' & Hin & Hl)].
    + apply Hv in Hk as [Hk|Hk]; [by left|].
      right. exists rkey, v. split; [left|done].
    + right. exists rk, v'. split; [by right|done].
Qed.

Lemma flatten_value_sound v : assigns_leaves Marshal v.
Proof.
  induction v as [| | | | |m IH|m IH|l IH] using value_ind; intros key acc k x Hk;
    rewrite flatten_value_unfold in Hk.
  1-5: destruct (decide (key = k)) as [->|Hne];
       [rewrite lookup_insert_eq in Hk; simplify_eq; right; by constructor
       |rewrite lookup_insert_ne in Hk by done; by left].
  - apply (flatten_sound_rows _ IH) in Hk as [Hk|(rk & v' & Hin & Hl)]; [by left|].
    right. by eapply (leaf_member _ _ (VMap m)).
  - apply (flatten_sound_rows _ IH) in Hk as [Hk|(rk & v' & Hin & Hl)]; [by left|].
    right. by eapply (leaf_member _ _ (VRow m)).
  - assert (Hfold : forall l0 acc0,
              Forall (assigns_leaves Marshal) l0 -> (forall sv, sv ∈ l0 -> sv ∈ l) ->
              foldl (flatten_element Marshal key) acc0 l0 !! k = Some x ->
              acc0 !! k = Some x \/ leaf Marshal key (VArr l) k x).
    { clear. intros l0. induction l0 as [|sv l0 IHl]; intros acc0 Hs Hsub Hk; [by left|].
      simpl in Hk. apply Forall_cons in Hs as [Hsv Hs].
      apply IHl in Hk as [Hk|Hk]; [|by right|done|].
      2:{ intros sv' Hsv'. apply Hsub. by right. }
      destruct (is_mapping sv) eqn:Hmap.
      - destruct (is_mapping_members _ Hmap) as [m Hm].
        rewrite (flatten_element_mapping _ _ _ _ Hm) in Hk.
        rewrite <- (flatten_value_mapping key sv m acc0 Hm) in Hk.
        apply Hsv in Hk as [Hk|Hk]; [by left|]. right.
        eapply leaf_element; [apply Hsub; left|done|done].
      - rewrite flatten_element_scalar in Hk by done. by left. }
    apply Hfold in Hk as [Hk|Hk]; [|by right|done|done].
    destruct (decide (key = k)) as [->|Hne].
    + rewrite lookup_insert_eq in Hk. simplify_eq. right. constructor.
    + rewrite lookup_insert_ne in Hk by done. by left.
Qed.

Lemma flatten_sound m lkey acc k x :
  flatten Marshal m lkey acc !! k = Some x ->
  acc !! k = Some x \/ doc_leaf Marshal lkey m k x.
Proof.
  apply flatten_sound_rows, Forall_forall. intros kv _. apply flatten_value_sound.
Qed.

Lemma flatten_keeps_rows m :
  Forall (fun kv => keeps_keys Marshal kv.2) m ->
  forall lkey acc k,
    is_Some (acc !! k) -> is_Some (flatten Marshal m lkey acc !! k).
Proof.
  intros Hm. induction Hm as [|[rkey v] m Hv _ IH]; intros lkey acc k Hk; [done|].
  rewrite flatten_cons. apply IH, Hv, Hk.
Qed.

Lemma insert_keeps (key k : string) (x : value) (acc : Row) :
  is_Some (acc !! k) -> is_Some (<[key := x]> acc !! k).
Proof.
  intros Hk. destruct (decide (key = k)) as [->|Hne].
  - rewrite lookup_insert_eq. eauto.
  - by rewrite lookup_insert_ne.
Qed.

Lemma flatten_value_keeps v : keeps_keys Marshal v.
Proof.
  induction v as [| | | | |m IH|m IH|l IH] using value_ind; intros key acc k Hk;
    rewrite flatten_value_unfold; try (by apply insert_keeps);
    try (by apply flatten_keeps_rows).
  apply (insert_keeps key k (VString (Marshal l).1)) in Hk.
  revert Hk. generalize (<[key:=VString (Marshal l).1]> acc). clear acc.
  induction IH as [|sv l Hsv _ IHl]; intros acc Hk; simpl; [done|].
  apply IHl. specialize (Hsv key acc k Hk). rewrite flatten_value_unfold in Hsv.
  destruct sv; simpl; done.
Qed.

Lemma flatten_keeps m lkey acc k :
  is_Some (acc !! k) -> is_Some (flatten Marshal m lkey acc !! k).
Proof.
  apply flatten_keeps_rows, Forall_forall. intros kv _. apply flatten_value_keeps.
Qed.

Lemma flatten_elements_keeps key l acc k :
  is_Some (acc !! k) -> is_Some (foldl (flatten_element Marshal key) acc l !! k).
Proof.
  revert acc. induction l as [|sv l IH]; intros acc Hk; simpl; [done|].
  apply IH. destruct sv; simpl; try done; by apply flatten_keeps.
Qed.

Lemma flatten_elements_sound key l l0 k x : forall acc,
  (forall sv, sv ∈ l0 -> sv ∈ l) ->
  foldl (flatten_element Marshal key) acc l0 !! k = Some x ->
  acc !! k = Some x \/ leaf Marshal key (VArr l) k x.
Proof.
  induction l0 as [|sv l0 IH]; intros acc Hsub Hk; [by left|].
  simpl in Hk. apply IH in Hk as [Hk|Hk]; [|by right|].
  2:{ intros sv' Hsv'. apply Hsub. by right. }
  destruct (is_mapping sv) eqn:Hmap.
  - destruct (is_mapping_members _ Hmap) as [m Hm].
    rewrite (flatten_element_mapping _ _ _ _ Hm) in Hk.
    rewrite <- (flatten_value_mapping key sv m acc Hm) in Hk.
    apply flatten_value_sound in Hk as [Hk|Hk]; [by left|]. right.
    eapply leaf_element; [apply Hsub; left|done|done].
  - rewrite flatten_element_scalar in Hk by done. by left.
Qed.

(** Once a key holds what an entry assigns to it, the rest of the loop
    leaves it that or assigns it again. *)
Lemma flatten_complete_entry m lkey rkey v k :
  (rkey, v) ∈ m ->
  (forall acc, exists x,
     flatten_value Marshal (lkey +:+ rkey) v acc !! k = Some x /\
     leaf Marshal (lkey +:+ rkey) v k x) ->
  forall acc, exists x,
    flatten Marshal m lkey acc !! k = Some x /\ doc_leaf Marshal lkey m k x.
Proof.
  intros Hin Hv. induction m as [|[rk w] m IHm]; intros acc.
  - by apply elem_of_nil in Hin.
  - rewrite flatten_cons. apply elem_of_cons in Hin as [Heq|Hin].
    + injection Heq as <- <-.
      destruct (Hv acc) as (x1 & Hx1 & Hl1).
      destruct (flatten_keeps m lkey _ k (mk_is_Some _ _ Hx1)) as [x2 Hx2].
      exists x2. split; [done|].
      apply flatten_sound in Hx2 as [Hx2|(rk2 & w2 & Hin2 & Hl2)].
      * rewrite Hx1 in Hx2. simplify_eq. exists rkey, v. split; [left|done].
      * exists rk2, w2. split; [by right|done].
    + destruct (IHm Hin (flatten_value Marshal (lkey +:+ rk) w acc))
        as (x2 & Hx2 & rk2 & w2 & Hin2 & Hl2).
      exists x2. split; [done|]. exists rk2, w2. split; [by right|done].
Qed.

Lemma flatten_elements_complete key l l0 sv k :
  sv ∈ l0 -> is_mapping sv = true ->
  (forall acc, exists x,
     flatten_value Marshal key sv acc !! k = Some x /\ leaf Marshal key sv k x) ->
  (forall sv', sv' ∈ l0 -> sv' ∈ l) ->
  forall acc, exists x,
    foldl (flatten_element Marshal key) acc l0 !! k = Some x /\
    leaf Marshal key (VArr l) k x.
Proof.
  intros Hin Hmap Hsv. induction l0 as [|sv0 l0 IHl]; intros Hsub acc.
  - by apply elem_of_nil in Hin.
  - simpl. apply elem_of_cons in Hin as [<-|Hin].
    + destruct (is_mapping_members _ Hmap) as [m Hm].
      destruct (Hsv acc) as (x1 & Hx1 & Hl1).
      rewrite (flatten_value_mapping _ _ _ _ Hm) in Hx1.
      rewrite <- (flatten_element_mapping key acc sv m Hm) in Hx1.
      destruct (flatten_elements_keeps key l0 _ k (mk_is_Some _ _ Hx1)) as [x2 Hx2].
      exists x2. split; [done|].
      apply (flatten_elements_sound key l) in Hx2 as [Hx2|Hx2]; [|done|].
      2:{ intros sv' Hsv'. apply Hsub. by right. }
      rewrite Hx1 in Hx2. simplify_eq.
      eapply leaf_element; [apply Hsub; left|done|done].
    + apply IHl; [done|]. intros sv' Hsv'. apply Hsub. by right.
Qed.

Lemma flatten_value_complete key v k x :
  leaf Marshal key v k x ->
  forall acc, exists x',
    flatten_value Marshal key v acc !! k = Some x' /\ leaf Marshal key v k x'.
Proof.
  induction 1 as [key v Hv|key l|key v m rkey v' k x Hm Hin Hl IH
                 |key l sv k x Hin Hmap Hl IH]; intros acc.
  - exists v. split; [|by constructor].
    rewrite flatten_value_unfold. destruct v; simpl in *; try done;
      apply lookup_insert_eq.
  - exists (VString (Marshal l).1). split; [apply flatten_array_key|constructor].
  - rewrite (flatten_value_mapping _ _ _ _ Hm).
    destruct (flatten_complete_entry m (key +:+ ".") rkey v' k Hin IH acc)
      as (x' & Hx' & rk & w & Hin' & Hl').
    exists x'. split; [done|]. by eapply leaf_member.
  - rewrite flatten_value_unfold.
    by apply (flatten_elements_complete key l l sv k).
Qed.

Lemma flatten_complete m lkey k x :
  doc_leaf Marshal lkey m k x ->
  forall acc, exists x',
    flatten Marshal m lkey acc !! k = Some x' /\ doc_leaf Marshal lkey m k x'.
Proof.
  intros (rkey & v & Hin & Hl).
  apply (flatten_complete_entry m lkey rkey v k Hin).
  apply (flatten_value_complete _ _ _ _ Hl).
Qed.

Lemma leaf_not_nested key v k x : leaf Marshal key v k x -> nested x = false.
Proof. induction 1; done. Qed.

Lemma leaf_prefix key v k x : leaf Marshal key v k x -> has_prefix key k.
Proof.
  induction 1 as [key v Hv|key l|key v m rkey v' k x Hm Hin Hl IH
                 |key l sv k x Hin Hmap Hl IH];
    try apply has_prefix_refl; [|done].
  apply has_prefix_app in IH. by apply has_prefix_app in IH.
Qed.

End FlattenLeaves.

(** X1.  The row [Flattener] returns holds, under every key, one of the
    values the document assigns to that key along a dotted path (a scalar
    leaf, or the serialized string of a slice); every key some path assigns
    is a key of the row; and where a single value is assigned to a key, the
    row holds that value. *)
Theorem Flattener_leaves (Marshal : list value -> string * option error)
    (d : entries) (k : string) :
  (forall x, (Flattener Marshal d).1 !! k = Some x -> doc_leaf Marshal "" d k x) /\
  (forall x, doc_leaf Marshal "" d k x ->
     exists x', (Flattener Marshal d).1 !! k = Some x' /\ doc_leaf Marshal "" d k x') /\
  (forall x, doc_leaf Marshal "" d k x ->
     (forall x', doc_leaf Marshal "" d k x' -> x' = x) ->
     (Flattener Marshal d).1 !! k = Some x).
Proof.
  assert (Hsound : forall x,
    (Flattener Marshal d).1 !! k = Some x -> doc_leaf Marshal "" d k x).
  { intros x Hx. apply flatten_sound in Hx as [Hx|Hx]; [|done].
    by rewrite lookup_empty in Hx. }
  assert (Hcomplete : forall x, doc_leaf Marshal "" d k x ->
     exists x', (Flattener Marshal d).1 !! k = Some x' /\ doc_leaf Marshal "" d k x').
  { intros x Hx. by apply (flatten_complete Marshal d "" k x). }
  split; [done|]. split; [done|].
  intros x Hx Huniq. destruct (Hcomplete x Hx) as (x' & Hx' & Hl').
  by rewrite <- (Huniq x' Hl').
Qed.

(** X2.  [flatten] only adds to the row it is given: no key is removed,
    an entry whose key does not start with the prefix [lkey] is left as it
    is, and whatever it stores is neither a mapping nor a slice; so the row
    [Flattener] returns holds no nested value. *)
Theorem flatten_extends (Marshal : list value -> string * option error)
    (inputJSON : entries) (lkey : string) (flattened : Row) :
  (forall k, is_Some (flattened !! k) ->
             is_Some (flatten Marshal inputJSON lkey flattened !! k)) /\
  (forall k, ~ has_prefix lkey k ->
             flatten Marshal inputJSON lkey flattened !! k = flattened !! k) /\
  (forall k x, flatten Marshal inputJSON lkey flattened !! k = Some x ->
               flattened !! k = Some x \/ nested x = false) /\
  flat (Flattener Marshal inputJSON).1.
Proof.
  split; [intros k; apply flatten_keeps|].
  split; [intros k; apply flatten_other|].
  split.
  - intros k x [Hx|(rkey & v & _ & Hl)]%flatten_sound; [by left|].
    right. by eapply leaf_not_nested.
  - apply flatten_flat, map_Forall_empty.
Qed.

(** ** rowToMap *)

(** X3.  [rowToMap] returns a map with exactly the entries of the row, in
    whatever order the row is ranged over. *)
Theorem rowToMap_copies (r : Row) (l : entries) :
  l ≡ₚ map_to_list r -> rowToMap l = r.
Proof.
  intros Hl. unfold rowToMap. rewrite foldl_insert_list_to_map.
  rewrite <- (list_to_map_to_list r). apply list_to_map_proper.
  - rewrite reverse_Permutation, Hl. apply NoDup_fst_map_to_list.
  - by rewrite reverse_Permutation.
Qed.

(** The row [{a: 1, b: 2}] ranged over from [b]. *)
Lemma rowToMap_copies_witness :
  [("b", VInt 2); ("a", VInt 1)]
    ≡ₚ map_to_list ({[ "a" := VInt 1; "b" := VInt 2 ]} : Row) /\
  rowToMap [("b", VInt 2); ("a", VInt 1)] = {[ "a" := VInt 1; "b" := VInt 2 ]}.
Proof.
  assert (H : [("b", VInt 2); ("a", VInt 1)]
                ≡ₚ map_to_list ({[ "a" := VInt 1; "b" := VInt 2 ]} : Row)).
  { vm_compute. first [reflexivity | apply perm_swap]. }
  split; [exact H|]. exact (rowToMap_copies _ _ H).
Defined.

(** ** FieldMap *)

Lemma FieldMap_fold (fields : list Field.t) (source : string) :
  default [] (foldl FieldMap_add ∅ fields !! source) =
    Field.Destination <$>
      filter (fun f => Field.Source f = source /\ Field.Destination f <> "") fields /\
  (foldl FieldMap_add ∅ fields !! source = None <->
   filter (fun f => Field.Source f = source /\ Field.Destination f <> "") fields = []).
Proof.
  induction fields as [|f fields [IH1 IH2]] using rev_ind; [done|].
  rewrite foldl_snoc, filter_app, fmap_app. unfold FieldMap_add at 1 3.
  rewrite filter_cons, filter_nil.
  destruct (decide (Field.Destination f = "")) as [Hd|Hd].
  - rewrite decide_False by (intros [_ ?]; done). simpl. rewrite !app_nil_r. done.
  - destruct (decide (Field.Source f = source)) as [Hs|Hs].
    + rewrite decide_True by done. rewrite Hs, lookup_insert_eq. simpl.
      rewrite IH1. split; [done|]. split; [done|].
      intros H. by apply app_eq_nil in H as [_ ?].
    + rewrite decide_False by (intros [? _]; done).
      rewrite lookup_insert_ne by done. simpl. rewrite !app_nil_r. done.
Qed.

Lemma FieldMap_lookup (t : Table.t) (source : string) :
  FieldMap t !! source =
    match destinations t source with
    | [] => None
    | d :: ds => Some (d :: ds)
    end.
Proof.
  destruct (FieldMap_fold (Table.Fields t) source) as [H1 H2].
  unfold destinations. change (foldl FieldMap_add ∅ (Table.Fields t)) with (FieldMap t) in *.
  destruct (FieldMap t !! source) as [l|] eqn:Hl; simpl in H1.
  - rewrite <- H1. destruct l as [|d ds]; [|done].
    symmetry in H1. apply fmap_nil_inv in H1. apply H2 in H1. done.
  - rewrite (proj1 H2 eq_refl). done.
Qed.

(** X4.  [FieldMap] maps a source path to the destinations of all the
    columns with that source and a destination that is not empty, in the
    order of the columns and with repetitions kept; a source path none of
    whose columns has a destination is not a key of the map. *)
Theorem FieldMap_destinations (t : Table.t) (source : string) (dests : list string) :
  (FieldMap t !! source = Some dests <->
   dests = destinations t source /\ dests <> []) /\
  (FieldMap t !! source = None <-> destinations t source = []).
Proof.
  rewrite FieldMap_lookup. destruct (destinations t source) as [|d ds].
  - split; split; try done. by intros [-> ?].
  - split; split; try done.
    + by intros [= <-].
    + by intros [-> _].
Qed.

(** ** The existential transformer, again *)

(** X5.  The existential transformer is idempotent: on a row it has
    returned it returns the same row, and does not panic. *)
Theorem existential_idempotent (t : Table.t) (r r' : Row) (e : option error) :
  GetExistentialTransformerFn t r = Returns (r', e) ->
  GetExistentialTransformerFn t r' = Returns (r', None).
Proof.
  unfold GetExistentialTransformerFn.
  destruct (existential (Table.Fields t) r) as [r1|] eqn:Hr; [|done].
  intros [= <- <-].
  pose proof (existential_spec _ _ _ Hr) as Hspec.
  destruct (existential_returns (Table.Fields t) r1) as [r2 Hr2].
  { intros k Hk Hnil. destruct (proj1 (Hspec k) Hk) as (b & _ & Hb). congruence. }
  rewrite Hr2. do 2 f_equal.
  pose proof (existential_spec _ _ _ Hr2) as Hspec2.
  apply map_eq. intros k.
  destruct (decide (k ∈ pii_sources (Table.Fields t))) as [Hk|Hk].
  - destruct (proj1 (Hspec k) Hk) as (b & _ & Hb).
    destruct (proj1 (Hspec2 k) Hk) as (b' & Hb' & ->).
    rewrite Hb in Hb'. simpl in Hb'. rewrite negb_involutive in Hb'. congruence.
  - apply (proj2 (Hspec2 k) Hk).
Qed.

(** The flattened row of the scenario, masked once and again. *)
Lemma existential_idempotent_witness :
  GetExistentialTransformerFn scenarioTable {[ "a.b" := VInt 5; "a.c" := VInt 0 ]} =
    Returns ({[ "a.b" := VInt 5; "a.c" := VBool false ]}, None) /\
  GetExistentialTransformerFn scenarioTable {[ "a.b" := VInt 5; "a.c" := VBool false ]} =
    Returns ({[ "a.b" := VInt 5; "a.c" := VBool false ]}, None).
Proof.
  assert (H : GetExistentialTransformerFn scenarioTable
                {[ "a.b" := VInt 5; "a.c" := VInt 0 ]} =
              Returns ({[ "a.b" := VInt 5; "a.c" := VBool false ]}, None))
    by (vm_compute; reflexivity).
  split; [exact H|]. exact (existential_idempotent _ _ _ _ H).
Defined.

(** X6.  The existential transformer panics exactly on the rows that hold
    a nil at the source path of a sensitive column. *)
Theorem existential_panics_iff (t : Table.t) (r : Row) :
  (exists msg, GetExistentialTransformerFn t r = Panics msg) <->
  (exists k, k ∈ pii_sources (Table.Fields t) /\ r !! k = Some VNil).
Proof.
  unfold GetExistentialTransformerFn. split.
  - intros [msg Hp]. destruct (existential (Table.Fields t) r) as [r1|msg1] eqn:Hr; [done|].
    by apply existential_panics in Hr.
  - intros (k & Hk & Hnil).
    destruct (existential (Table.Fields t) r) as [r1|msg1] eqn:Hr; [|by eexists].
    destruct (proj1 (existential_spec _ _ _ Hr k) Hk) as (b & Hb & _).
    rewrite Hnil in Hb. done.
Qed.

(** ** The field map and the chain *)

Section FieldmapFacts.

Lemma foldl_dests_lookup (v : value) (dests : list string) (acc : Row) (d : string) :
  foldl (fun newRow val => <[val := v]> newRow) acc dests !! d =
  if decide (d ∈ dests) then Some v else acc !! d.
Proof.
  revert acc. induction dests as [|x dests IH]; intros acc; simpl.
  - destruct (decide (d ∈ [])) as [Hin|_]; [|done]. by apply elem_of_nil in Hin.
  - rewrite IH. destruct (decide (d ∈ dests)) as [Hin|Hin].
    + destruct (decide (d ∈ x :: dests)) as [_|Hn]; [done|]. destruct Hn. by right.
    + destruct (decide (d = x)) as [->|Hne].
      * destruct (decide (x ∈ x :: dests)) as [_|Hn]; [|destruct Hn; left].
        apply lookup_insert_eq.
      * destruct (decide (d ∈ x :: dests)) as [[?|?]%elem_of_cons|_]; [done..|].
        by apply lookup_insert_ne.
Qed.

Lemma Fieldmap_fold_sound (row : Row) (l : list (string * list string)) acc d x :
  foldl (Fieldmap_copy row) acc l !! d = Some x ->
  acc !! d = Some x \/
  exists src dests, (src, dests) ∈ l /\ d ∈ dests /\ row !! src = Some x.
Proof.
  revert acc. induction l as [|[src dests] l IH]; intros acc Hd; simpl in Hd; [by left|].
  apply IH in Hd as [Hd|(s & ds & Hin & ? & ?)].
  - unfold Fieldmap_copy in Hd. simpl in Hd.
    destruct (row !! src) as [v|] eqn:Hv; [|by left].
    rewrite foldl_dests_lookup in Hd. destruct (decide (d ∈ dests)); [|by left].
    simplify_eq. right. exists src, dests. split; [left|done].
  - right. exists s, ds. split; [by right|done].
Qed.

Lemma Fieldmap_fold_keeps (row : Row) (l : list (string * list string)) acc d :
  is_Some (acc !! d) -> is_Some (foldl (Fieldmap_copy row) acc l !! d).
Proof.
  revert acc. induction l as [|[src dests] l IH]; intros acc Hd; simpl; [done|].
  apply IH. unfold Fieldmap_copy. simpl. destruct (row !! src) as [v|]; [|done].
  rewrite foldl_dests_lookup. destruct (decide (d ∈ dests)); eauto.
Qed.

Lemma Fieldmap_fold_complete (row : Row) (l : list (string * list string)) acc
    src dests d :
  (src, dests) ∈ l -> d ∈ dests -> is_Some (row !! src) ->
  is_Some (foldl (Fieldmap_copy row) acc l !! d).
Proof.
  revert acc. induction l as [|[s ds] l IH]; intros acc Hin Hd Hsrc.
  - by apply elem_of_nil in Hin.
  - simpl. apply elem_of_cons in Hin as [Heq|Hin]; [|by apply IH].
    injection Heq as <- <-. apply Fieldmap_fold_keeps.
    unfold Fieldmap_copy. simpl. destruct Hsrc as [v ->].
    rewrite foldl_dests_lookup, decide_True by done. eauto.
Qed.

Lemma Fieldmap_sound (mappings : gmap string (list string)) (row : Row) d x :
  (Optimus.Fieldmap mappings row).1 !! d = Some x ->
  exists src dests, mappings !! src = Some dests /\ d ∈ dests /\ row !! src = Some x.
Proof.
  unfold Optimus.Fieldmap. simpl. intros H.
  apply (Fieldmap_fold_sound row (map_to_list mappings) ∅ d x) in H
    as [H|(src & dests & Hin & ? & ?)]; [done|].
  exists src, dests. by rewrite <- elem_of_map_to_list.
Qed.

Lemma Fieldmap_complete (mappings : gmap string (list string)) (row : Row)
    src dests d :
  mappings !! src = Some dests -> d ∈ dests -> is_Some (row !! src) ->
  is_Some ((Optimus.Fieldmap mappings row).1 !! d).
Proof.
  intros Hm Hd Hsrc. unfold Optimus.Fieldmap. simpl.
  change (is_Some (foldl (Fieldmap_copy row) ∅ (map_to_list mappings) !! d)).
  eapply Fieldmap_fold_complete; [|done..]. by apply elem_of_map_to_list.
Qed.

Lemma FieldMap_elem (t : Table.t) src d :
  (exists dests, FieldMap t !! src = Some dests /\ d ∈ dests) <->
  (exists f, f ∈ Table.Fields t /\ Field.Source f = src /\ Field.Destination f = d /\
             d <> "").
Proof.
  rewrite FieldMap_lookup. unfold destinations. split.
  - intros (dests & Hd & Hin).
    assert (Hin' : d ∈ Field.Destination <$>
              filter (fun f => Field.Source f = src /\ Field.Destination f <> "")
                     (Table.Fields t)).
    { destruct (Field.Destination <$> _); [done|]. by simplify_eq. }
    apply list_elem_of_fmap in Hin' as (f & -> & Hf).
    apply list_elem_of_filter in Hf as [[? ?] ?]. by exists f.
  - intros (f & Hf & Hs & Hd & Hne).
    assert (Hin' : d ∈ Field.Destination <$>
              filter (fun f => Field.Source f = src /\ Field.Destination f <> "")
                     (Table.Fields t)).
    { apply list_elem_of_fmap. exists f. split; [done|].
      apply list_elem_of_filter. split; [|done]. split; [done|]. by rewrite Hd. }
    destruct (Field.Destination <$> _) as [|d0 ds]; [by apply elem_of_nil in Hin'|].
    by eexists.
Qed.

End FieldmapFacts.

Lemma remap_sound (t : Table.t) (r : Row) d x :
  (Optimus.Fieldmap (FieldMap t) r).1 !! d = Some x ->
  exists f, f ∈ Table.Fields t /\ Field.Destination f = d /\ d <> "" /\
            r !! Field.Source f = Some x.
Proof.
  intros (src & dests & Hm & Hd & Hsrc)%Fieldmap_sound.
  destruct (proj1 (FieldMap_elem t src d)) as (f & ? & ? & ? & ?); [by eauto|].
  exists f. by subst.
Qed.

Lemma remap_complete (t : Table.t) (r : Row) f :
  f ∈ Table.Fields t -> Field.Destination f <> "" -> is_Some (r !! Field.Source f) ->
  is_Some ((Optimus.Fieldmap (FieldMap t) r).1 !! Field.Destination f).
Proof.
  intros Hf Hne Hsrc.
  destruct (proj2 (FieldMap_elem t (Field.Source f) (Field.Destination f)))
    as (dests & Hm & Hd); [by exists f|].
  by eapply Fieldmap_complete.
Qed.

Lemma remap_unique (t : Table.t) (r : Row) f :
  f ∈ Table.Fields t -> Field.Destination f <> "" ->
  (forall g, g ∈ Table.Fields t -> Field.Destination g = Field.Destination f ->
             Field.Source g = Field.Source f) ->
  (Optimus.Fieldmap (FieldMap t) r).1 !! Field.Destination f = r !! Field.Source f.
Proof.
  intros Hf Hne Huniq.
  destruct ((Optimus.Fieldmap (FieldMap t) r).1 !! Field.Destination f) as [x|] eqn:Hx.
  - destruct (remap_sound _ _ _ _ Hx) as (g & Hg & Hgd & _ & Hgs).
    by rewrite <- (Huniq g Hg Hgd).
  - destruct (r !! Field.Source f) as [v|] eqn:Hv; [|done].
    destruct (remap_complete t r f Hf Hne) as [x Hx']; [by rewrite Hv|]. congruence.
Qed.

(** X7.  The row the field map makes from [table.FieldMap()] holds, under
    each of its keys, the value the given row holds at the source of a
    column with that destination; it has a key for the destination of every
    column whose source the given row holds; and a destination fed by one
    source only holds what the row holds at that source, or nothing when the
    row has nothing there.  Keys of the given row are not carried over, and
    no key is empty. *)
Theorem remap_destinations (t : Table.t) (r : Row) :
  (forall d x,
     (Optimus.Fieldmap (FieldMap t) r).1 !! d = Some x ->
     exists f, f ∈ Table.Fields t /\ Field.Destination f = d /\ d <> "" /\
               r !! Field.Source f = Some x) /\
  (forall f,
     f ∈ Table.Fields t -> Field.Destination f <> "" -> is_Some (r !! Field.Source f) ->
     is_Some ((Optimus.Fieldmap (FieldMap t) r).1 !! Field.Destination f)) /\
  (forall f,
     f ∈ Table.Fields t -> Field.Destination f <> "" ->
     (forall g, g ∈ Table.Fields t -> Field.Destination g = Field.Destination f ->
                Field.Source g = Field.Source f) ->
     (Optimus.Fieldmap (FieldMap t) r).1 !! Field.Destination f = r !! Field.Source f).
Proof.
  split; [apply remap_sound|]. split; [apply remap_complete|apply remap_unique].
Qed.

Section ChainFacts.

Variable Marshal : list value -> string * option error.
Variable table : Table.t.
Variable timestamp : string.

Lemma exportChain_returns d n out n' :
  exportChain Marshal table timestamp d n = Returns (inr out, n') ->
  exists masked,
    GetExistentialTransformerFn table (Flattener Marshal d).1 = Returns (masked, None) /\
    out = <[Meta.DataDateColumn (Table.Meta table) := VString timestamp]>
            (Optimus.Fieldmap (FieldMap table) masked).1.
Proof.
  rewrite exportChain_stages.
  destruct (GetExistentialTransformerFn _ _) as [[masked e]|] eqn:Hmask; [|done].
  intros [= <-]. exists masked. split; [|done].
  unfold GetExistentialTransformerFn in *. destruct (existential _ _); by simplify_eq.
Qed.

Lemma exportChain_total d n :
  no_nil_sensitive Marshal table d ->
  exists out, exportChain Marshal table timestamp d n = Returns (inr out, wrap64 (n + 1)).
Proof.
  intros Hd. rewrite exportChain_stages.
  destruct (existential_masks table _ Hd) as (masked & -> & _). eauto.
Qed.

Lemma exportChain_any_count d n n0 out n' :
  exportChain Marshal table timestamp d n = Returns (inr out, n') ->
  exportChain Marshal table timestamp d n0 = Returns (inr out, wrap64 (n0 + 1)).
Proof.
  rewrite !exportChain_stages.
  destruct (GetExistentialTransformerFn _ _) as [[masked e]|]; [|done].
  by intros [= <- _].
Qed.

End ChainFacts.

(** X8.  A row that comes out of the chain of [exportData] holds the
    timestamp of the run under the date column, whatever was mapped to that
    name; under every other key it holds what the flattened document holds at
    the source of a column with that destination, or, when that source is
    the source of a sensitive column, the boolean of it and never the value
    itself; and the destination of a sensitive column, when it is not empty,
    is not the date column and is fed by no other source, is always there, as
    a boolean. *)
Theorem exportChain_row (Marshal : list value -> string * option error)
    (table : Table.t) (timestamp : string) (d : entries) (n : Z) (out : Row) (n' : Z) :
  exportChain Marshal table timestamp d n = Returns (inr out, n') ->
  out !! Meta.DataDateColumn (Table.Meta table) = Some (VString timestamp) /\
  (forall k x,
     k <> Meta.DataDateColumn (Table.Meta table) -> out !! k = Some x ->
     exists f, f ∈ Table.Fields table /\ Field.Destination f = k /\ k <> "" /\
       (Field.Source f ∈ pii_sources (Table.Fields table) ->
        exists b, x = VBool b /\
                  exists_nonzero ((Flattener Marshal d).1 !! Field.Source f) = Some b) /\
       (Field.Source f ∉ pii_sources (Table.Fields table) ->
        (Flattener Marshal d).1 !! Field.Source f = Some x)) /\
  (forall f,
     f ∈ Table.Fields table -> Field.PII f = true ->
     Field.Destination f <> "" ->
     Field.Destination f <> Meta.DataDateColumn (Table.Meta table) ->
     (forall g, g ∈ Table.Fields table -> Field.Destination g = Field.Destination f ->
                Field.Source g = Field.Source f) ->
     exists b, out !! Field.Destination f = Some (VBool b) /\
               exists_nonzero ((Flattener Marshal d).1 !! Field.Source f) = Some b).
Proof.
  intros (masked & Hmask & ->)%exportChain_returns.
  unfold GetExistentialTransformerFn in Hmask.
  destruct (existential _ _) as [r1|] eqn:Hex; [|done]. simplify_eq.
  pose proof (existential_spec _ _ _ Hex) as Hspec.
  pose proof (remap_sound table masked) as Hsound.
  pose proof (remap_unique table masked) as Huniq.
  split; [apply lookup_insert_eq|]. split.
  - intros k x Hk Hx. rewrite lookup_insert_ne in Hx by done.
    destruct (Hsound _ _ Hx) as (f & Hf & Hd & Hne & Hs).
    exists f. split; [done|]. split; [done|]. split; [done|]. split.
    + intros Hpii. destruct (proj1 (Hspec _) Hpii) as (b & Hb & Hb').
      exists b. split; [congruence|done].
    + intros Hpii. by rewrite <- (proj2 (Hspec _) Hpii).
  - intros f Hf Hpii Hne Hdate Hu.
    rewrite lookup_insert_ne by done. rewrite (Huniq f Hf Hne Hu).
    assert (Hin : Field.Source f ∈ pii_sources (Table.Fields table)).
    { unfold pii_sources. apply list_elem_of_fmap. exists f. split; [done|].
      by apply list_elem_of_filter. }
    destruct (proj1 (Hspec _) Hin) as (b & Hb & Hb'). eauto.
Qed.

(** The scenario: the date column, and [false] under [y]. *)
Lemma exportChain_row_witness :
  exists out,
    exportChain jsonMarshal scenarioTable scenarioTimestamp scenarioRow 0 =
      Returns (inr out, 1) /\
    out !! "_data_timestamp" = Some (VString scenarioTimestamp) /\
    out !! "y" = Some (VBool false).
Proof.
  assert (H : exists out,
    exportChain jsonMarshal scenarioTable scenarioTimestamp scenarioRow 0 =
      Returns (inr out, 1)).
  { eexists. vm_compute. reflexivity. }
  destruct H as [out Hout]. exists out. split; [exact Hout|].
  destruct (exportChain_row _ _ _ _ _ _ _ Hout) as (Hdate & _ & Hpii).
  split; [exact Hdate|].
  set (f := {| Field.Destination := "y"; Field.Source := "a.c"; Field.PII := true |}).
  assert (Hf : f ∈ Table.Fields scenarioTable) by (right; left).
  assert (Hu : forall g, g ∈ Table.Fields scenarioTable ->
                 Field.Destination g = Field.Destination f ->
                 Field.Source g = Field.Source f).
  { intros g Hg Hd. apply elem_of_cons in Hg as [->|Hg]; [discriminate Hd|].
    apply elem_of_cons in Hg as [->|Hg]; [reflexivity|].
    apply elem_of_nil in Hg. destruct Hg. }
  assert (Hne : Field.Destination f <> "") by (clear; discriminate).
  assert (Hnd : Field.Destination f <> Meta.DataDateColumn (Table.Meta scenarioTable))
    by (clear; discriminate).
  destruct (Hpii f Hf eq_refl Hne Hnd Hu) as (b & Hb & Hb').
  vm_compute in Hb'. injection Hb' as <-. exact Hb.
Defined.

(** X9.  On documents that hold no nil at a sensitive path, with a sink
    that takes every row, [exportData] returns: its count is the number of
    documents (as a 64-bit integer), its error is the error of the source,
    and the sink has received, in order, the row of the chain for each
    document. *)
Theorem exportData_total (Marshal : list value -> string * option error)
    (table : Table.t) (timestamp : string) (source : list entries)
    (sourceErr : option error) :
  Forall (no_nil_sensitive Marshal table) source ->
  exists rows,
    exportData Marshal source sourceErr table (fun _ => None) timestamp =
      Returns ((wrap64 (Z.of_nat (length source)), sourceErr), rows) /\
    Forall2 (fun d r => exported Marshal table timestamp d = Some r) source rows.
Proof.
  intros Hsource. unfold exportData.
  assert (Hsink : forall n0 w0, exists rows,
    Optimus.Sink (exportChain Marshal table timestamp) (fun _ => None) source
      sourceErr n0 w0 =
    Returns (sourceErr,
             match source with
             | [] => n0
             | _ :: _ => wrap64 (n0 + Z.of_nat (length source))
             end, w0 ++ rows) /\
    Forall2 (fun d r => exported Marshal table timestamp d = Some r) source rows).
  { induction Hsource as [|d source Hd _ IH]; intros n0 w0.
    - exists []. rewrite app_nil_r. by split.
    - simpl. destruct (exportChain_total Marshal table timestamp d n0 Hd) as [out Hout].
      rewrite Hout. destruct (IH (wrap64 (n0 + 1)) (w0 ++ [out])) as (rows & -> & Hrows).
      exists (out :: rows). split.
      + rewrite <- app_assoc. simpl. do 3 f_equal.
        destruct source as [|d' source]; [done|].
        rewrite wrap64_add_l. f_equal. cbn [length]. lia.
      + constructor; [|done]. unfold exported.
        by rewrite (exportChain_any_count _ _ _ _ _ 0 _ _ Hout). }
  destruct (Hsink 0 []) as (rows & -> & Hrows). exists rows. split; [|done].
  simpl. by destruct source.
Qed.

(** The three documents of the scenario. *)
Lemma exportData_total_witness :
  Forall (no_nil_sensitive jsonMarshal scenarioTable) scenarioDocs /\
  exists rows,
    exportData jsonMarshal scenarioDocs None scenarioTable (fun _ => None)
      scenarioTimestamp = Returns ((3, None), rows) /\
    length rows = 3%nat.
Proof.
  assert (H : Forall (no_nil_sensitive jsonMarshal scenarioTable) scenarioDocs).
  { assert (Hk : forall k, k ∈ pii_sources (Table.Fields scenarioTable) -> k = "a.c").
    { intros k Hk. apply elem_of_cons in Hk as [->|Hk]; [reflexivity|].
      by apply elem_of_nil in Hk. }
    repeat constructor; intros k ->%Hk; vm_compute; discriminate. }
  split; [exact H|].
  destruct (exportData_total jsonMarshal scenarioTable scenarioTimestamp scenarioDocs
              None H) as (rows & Hrows & Hall).
  exists rows. split; [exact Hrows|]. by apply Forall2_length in Hall.
Defined.
(** ** The names of the objects *)

Lemma string_app_inv_tail (a b c : string) : a +:+ c = b +:+ c -> a = b.
Proof.
  revert b. induction a as [|x a IH]; intros [|y b] H; [done| | |].
  - apply (f_equal String.length) in H.
    change ("" +:+ c) with c in H. rewrite string_app_length in H.
    cbn [String.length] in H. lia.
  - apply (f_equal String.length) in H.
    change ("" +:+ c) with c in H. rewrite string_app_length in H.
    cbn [String.length] in H. lia.
  - change (String x (a +:+ c) = String y (b +:+ c)) in H.
    injection H as -> H. f_equal. by apply IH.
Qed.

Lemma string_app_inv_head (a b c : string) : a +:+ b = a +:+ c -> b = c.
Proof.
  induction a as [|x a IH]; [done|].
  change (String x (a +:+ b) = String x (a +:+ c) -> b = c).
  intros [= H]. by apply IH.
Qed.

Lemma last_char_app (a b : string) :
  b <> "" -> last_char (a +:+ b) = last_char b.
Proof.
  intros Hb. induction a as [|x a IH]; [done|].
  change (last_char (String x (a +:+ b)) = last_char b).
  simpl. destruct (a +:+ b) eqn:Hab; [|done].
  destruct a; [|done]. simpl in Hab. done.
Qed.

Section NameFacts.

Variable ParseRFC3339 : string -> Time.t * option error.

Lemma formatFilename_index_inj timestamp dest (i j : nat) extension :
  formatFilename ParseRFC3339 timestamp dest (pretty (Z.of_nat i)) extension =
  formatFilename ParseRFC3339 timestamp dest (pretty (Z.of_nat j)) extension ->
  i = j.
Proof.
  rewrite !formatFilename_parts. intros H.
  repeat apply string_app_inv_head in H.
  assert (Hp : pretty (Z.of_nat i) = pretty (Z.of_nat j)).
  { destruct (decide (pretty (Z.of_nat i) = "")) as [Hi|Hi];
      destruct (decide (pretty (Z.of_nat j) = "")) as [Hj|Hj].
    - congruence.
    - apply (f_equal String.length) in H. rewrite !string_app_length in H.
      simpl in H. lia.
    - apply (f_equal String.length) in H. rewrite !string_app_length in H.
      simpl in H. lia.
    - apply string_app_inv_tail in H. by apply (string_app_inv_head "_") in H. }
  apply (inj pretty) in Hp. lia.
Qed.

Lemma formatFilename_extension timestamp dest dest' fileIndex fileIndex' ext ext' :
  ext <> "" -> ext' <> "" ->
  formatFilename ParseRFC3339 timestamp dest fileIndex ext =
  formatFilename ParseRFC3339 timestamp dest' fileIndex' ext' ->
  last_char ext = last_char ext'.
Proof.
  intros He He' H. apply (f_equal last_char) in H.
  rewrite !formatFilename_parts in H.
  repeat rewrite <- string_app_assoc in H.
  by rewrite !last_char_app in H.
Qed.

End NameFacts.

Lemma names_distinct (ParseRFC3339 : string -> Time.t * option error)
    (sourceTable : Table.t) (timestamp : string) (docs : list entries)
    (numFiles : nat) (name : string) :
  NoDup (outputName <$> shards (init ParseRFC3339 sourceTable timestamp docs numFiles)) /\
  (manifestName ParseRFC3339 timestamp (Table.Destination sourceTable) ∉
     outputName <$> shards (init ParseRFC3339 sourceTable timestamp docs numFiles)) /\
  (configKey ParseRFC3339 timestamp name ∉
     outputName <$> shards (init ParseRFC3339 sourceTable timestamp docs numFiles)) /\
  configKey ParseRFC3339 timestamp name <>
    manifestName ParseRFC3339 timestamp (Table.Destination sourceTable).
Proof.
  assert (Hnames :
    outputName <$> shards (init ParseRFC3339 sourceTable timestamp docs numFiles) =
    shardName ParseRFC3339 timestamp (Table.Destination sourceTable) <$> seq 0 numFiles).
  { simpl. by rewrite <- list_fmap_compose. }
  rewrite Hnames. split; [|split; [|split]].
  - apply NoDup_fmap_2_strong; [|apply NoDup_seq].
    intros i j _ _. apply formatFilename_index_inj.
  - intros (i & H & _)%list_elem_of_fmap.
    by apply formatFilename_extension in H.
  - intros (i & H & _)%list_elem_of_fmap.
    by apply formatFilename_extension in H.
  - intros H. by apply formatFilename_extension in H.
Qed.

(** X10.  The objects of a run have names of their own: the names of the
    shards are pairwise distinct, the name of the manifest is none of them,
    and the key under which [copyConfigFile] has stored the configuration
    (its result, less the [s3://<bucket>/] it starts with when a bucket is
    given) is neither the name of a shard nor that of the manifest. *)
Theorem run_names_distinct (ParseRFC3339 : string -> Time.t * option error)
    (Write : string -> string -> option error)
    (sourceTable : Table.t) (timestamp : string) (docs : list entries)
    (numFiles : nat) (bucket data name outPath : string) :
  copyConfigFile ParseRFC3339 Write bucket timestamp data name = Fine outPath ->
  NoDup (outputName <$> shards (init ParseRFC3339 sourceTable timestamp docs numFiles)) /\
  (manifestName ParseRFC3339 timestamp (Table.Destination sourceTable) ∉
     outputName <$> shards (init ParseRFC3339 sourceTable timestamp docs numFiles)) /\
  exists key,
    outPath = (if decide (bucket = "") then key else "s3://" +:+ bucket +:+ "/" +:+ key) /\
    (key ∉ outputName <$> shards (init ParseRFC3339 sourceTable timestamp docs numFiles)) /\
    key <> manifestName ParseRFC3339 timestamp (Table.Destination sourceTable).
Proof.
  intros Hcopy.
  destruct (names_distinct ParseRFC3339 sourceTable timestamp docs numFiles name)
    as (H1 & H2 & H3 & H4).
  split; [done|]. split; [done|].
  exists (configKey ParseRFC3339 timestamp name). split; [|by split].
  unfold copyConfigFile in Hcopy. unfold configKey.
  destruct (Write _ _); [done|]. by injection Hcopy as <-.
Qed.

(** The copy of the configuration [il] and the two shards of the scenario. *)
Lemma run_names_distinct_witness :
  copyConfigFile Time.ParseRFC3339 (fun _ _ => None) "clever-analytics"
    scenarioTimestamp "students: ..." "il" =
    Fine "s3://clever-analytics/mongo/il/_data_timestamp_year=2024/_data_timestamp_month=01/_data_timestamp_day=01/mongo_il_2024-01-01T00:00:00Z.yml" /\
  NoDup (outputName <$> shards scenarioInit).
Proof.
  assert (H : copyConfigFile Time.ParseRFC3339 (fun _ _ => None) "clever-analytics"
                scenarioTimestamp "students: ..." "il" =
              Fine "s3://clever-analytics/mongo/il/_data_timestamp_year=2024/_data_timestamp_month=01/_data_timestamp_day=01/mongo_il_2024-01-01T00:00:00Z.yml")
    by (vm_compute; reflexivity).
  split; [exact H|].
  exact (proj1 (run_names_distinct Time.ParseRFC3339 (fun _ _ => None) scenarioTable
                  scenarioTimestamp scenarioDocs 2%nat _ _ _ _ H)).
Defined.

(** X11.  [formatFilename] drops the error of [time.Parse]: for a
    timestamp that does not parse, the time is the zero time and the
    directory is that of January 1 of the year 1, written
    [year=01/month=01/day=01]; the file name still carries the timestamp as
    given. *)
Theorem formatFilename_unparsed (ParseRFC3339 : string -> Time.t * option error)
    (timestamp collectionName fileIndex extension : string) :
  (ParseRFC3339 timestamp).1 = Time.zero ->
  formatFilename ParseRFC3339 timestamp collectionName fileIndex extension =
    "mongo/" +:+ collectionName +:+
    "/_data_timestamp_year=01/_data_timestamp_month=01/_data_timestamp_day=01/mongo_" +:+
    collectionName +:+ "_" +:+ timestamp +:+
    (if decide (fileIndex = "") then "" else "_" +:+ fileIndex) +:+ extension.
Proof.
  intros Hzero. rewrite formatFilename_parts, Hzero.
  change (fmt02d (Time.Year Time.zero)) with "01".
  change (fmt02d (Time.Month Time.zero)) with "01".
  change (fmt02d (Time.Day Time.zero)) with "01".
  reflexivity.
Qed.

(** A timestamp that is no RFC 3339 time. *)
Lemma formatFilename_unparsed_witness :
  (Time.ParseRFC3339 "yesterday").1 = Time.zero /\
  formatFilename Time.ParseRFC3339 "yesterday" "students" "0" ".json.gz" =
    "mongo/students/_data_timestamp_year=01/_data_timestamp_month=01/_data_timestamp_day=01/mongo_students_yesterday_0.json.gz".
Proof.
  assert (H : (Time.ParseRFC3339 "yesterday").1 = Time.zero) by reflexivity.
  split; [exact H|].
  rewrite (formatFilename_unparsed Time.ParseRFC3339 "yesterday" "students" "0"
             ".json.gz" H).
  reflexivity.
Defined.

(** ** The table of a collection *)

Lemma curTable_last (sourceInput : string) (configYaml : Config) (t0 : Table.t) :
  foldl (fun curTable kt =>
           if decide (sourceInput = Table.Source kt.2) then kt.2 else curTable)
        t0 configYaml =
  default t0 (last (tables_of sourceInput configYaml)).
Proof.
  unfold tables_of.
  induction configYaml as [|[k t] conf IH] using rev_ind; [done|].
  rewrite foldl_snoc, fmap_app, filter_app. simpl.
  rewrite filter_cons, filter_nil.
  destruct (decide (sourceInput = Table.Source t)) as [->|Hne].
  - rewrite decide_True by done. by rewrite last_snoc.
  - rewrite decide_False by done. by rewrite app_nil_r.
Qed.

Lemma getTableFromConf_last (sourceInput : string) (configYaml : Config) :
  getTableFromConf sourceInput configYaml =
    if decide (sourceInput = "") then (zeroTable, Some "No collection specified")
    else
      match last (tables_of sourceInput configYaml) with
      | Some t =>
          if decide (Table.Destination t = "") then
            (zeroTable,
             Some ("Could not find source table: " +:+ sourceInput +:+ " in config"))
          else (t, None)
      | None =>
          (zeroTable,
           Some ("Could not find source table: " +:+ sourceInput +:+ " in config"))
      end.
Proof.
  unfold getTableFromConf. destruct (decide (sourceInput = "")); [done|].
  rewrite curTable_last. by destruct (last _) as [t|].
Qed.

Lemma getTableFromConf_found (sourceInput : string) (configYaml : Config)
    (t : Table.t) :
  getTableFromConf sourceInput configYaml = (t, None) ->
  sourceInput <> "" /\
  t ∈ configYaml.*2 /\
  Table.Source t = sourceInput /\
  Table.Destination t <> "".
Proof.
  rewrite getTableFromConf_last.
  destruct (decide (sourceInput = "")); [done|].
  destruct (last _) as [t'|] eqn:Hlast; [|done].
  destruct (decide (Table.Destination t' = "")); [done|]. intros [= ->].
  apply last_Some in Hlast as [l' Hl'].
  assert (Hin : t ∈ tables_of sourceInput configYaml).
  { rewrite Hl'. apply elem_of_app. right. left. }
  apply list_elem_of_filter in Hin as [? ?]. done.
Qed.

(** X12.  [getTableFromConf] returns a table and no error exactly when the
    collection name is not empty and the last table ranged over whose source
    is that name has a destination; it is that table.  An empty name is
    answered with [No collection specified]; a name no table has as its
    source, and one whose last table has no destination, with
    [Could not find source table], both with the zero table. *)
Theorem getTableFromConf_answer (sourceInput : string) (configYaml : Config)
    (t : Table.t) :
  (getTableFromConf sourceInput configYaml = (t, None) <->
   sourceInput <> "" /\
   last (tables_of sourceInput configYaml) = Some t /\
   Table.Destination t <> "") /\
  (sourceInput = "" ->
   getTableFromConf sourceInput configYaml =
     (zeroTable, Some "No collection specified")) /\
  (sourceInput <> "" ->
   (forall t', last (tables_of sourceInput configYaml) = Some t' ->
               Table.Destination t' = "") ->
   getTableFromConf sourceInput configYaml =
     (zeroTable,
      Some ("Could not find source table: " +:+ sourceInput +:+ " in config"))).
Proof.
  rewrite getTableFromConf_last. split; [|split].
  - destruct (decide (sourceInput = "")) as [->|Hne]; [split; [done|by intros [? _]]|].
    destruct (last _) as [t'|]; [|split; [done|by intros (_ & ? & _)]].
    destruct (decide (Table.Destination t' = "")) as [Hd|Hd].
    + split; [done|]. intros (_ & [= ->] & ?). done.
    + split.
      * by intros [= <-].
      * by intros (_ & [= ->] & _).
  - intros ->. done.
  - intros Hne Hall. rewrite decide_False by done.
    destruct (last _) as [t'|]; [|done]. by rewrite decide_True by by apply Hall.
Qed.

(** X13.  When the collection name is not empty and one table only has it
    as its source, with a destination, [getTableFromConf] returns that table
    in whatever order the configuration is ranged over. *)
Theorem getTableFromConf_unique (sourceInput : string) (configYaml conf' : Config)
    (t : Table.t) :
  sourceInput <> "" ->
  t ∈ configYaml.*2 ->
  Table.Source t = sourceInput ->
  Table.Destination t <> "" ->
  (forall t', t' ∈ configYaml.*2 -> Table.Source t' = sourceInput -> t' = t) ->
  conf' ≡ₚ configYaml ->
  getTableFromConf sourceInput conf' = (t, None).
Proof.
  intros Hne Hin Hs Hd Huniq Hperm. rewrite getTableFromConf_last.
  rewrite decide_False by done.
  assert (Hin' : t ∈ tables_of sourceInput conf').
  { apply list_elem_of_filter. split; [done|]. by rewrite Hperm. }
  destruct (last (tables_of sourceInput conf')) as [t'|] eqn:Hlast.
  - apply last_Some in Hlast as [l' Hl'].
    assert (Ht' : t' ∈ tables_of sourceInput conf').
    { rewrite Hl'. apply elem_of_app. right. left. }
    apply list_elem_of_filter in Ht' as [Hs' Ht'].
    rewrite Hperm in Ht'. rewrite (Huniq t' Ht' Hs').
    by rewrite decide_False.
  - apply last_None in Hlast. rewrite Hlast in Hin'. by apply elem_of_nil in Hin'.
Qed.

(** The table of the scenario beside a table with no source, ranged over
    in both orders. *)
Lemma getTableFromConf_unique_witness :
  getTableFromConf "students"
    [("b", zeroTable); ("a", scenarioTable)] = (scenarioTable, None) /\
  getTableFromConf "students"
    [("a", scenarioTable); ("b", zeroTable)] = (scenarioTable, None).
Proof.
  assert (Hin : scenarioTable ∈ [("a", scenarioTable); ("b", zeroTable)].*2) by left.
  assert (Hu : forall t', t' ∈ [("a", scenarioTable); ("b", zeroTable)].*2 ->
                 Table.Source t' = "students" -> t' = scenarioTable).
  { intros t' Ht' Hs. apply elem_of_cons in Ht' as [->|Ht']; [reflexivity|].
    apply elem_of_cons in Ht' as [->|Ht']; [discriminate Hs|].
    apply elem_of_nil in Ht'. destruct Ht'. }
  assert (Hne : "students" <> "") by discriminate.
  assert (Hd : Table.Destination scenarioTable <> "") by discriminate.
  split.
  - apply (getTableFromConf_unique "students" [("a", scenarioTable); ("b", zeroTable)]
             _ scenarioTable Hne Hin eq_refl Hd Hu).
    apply perm_swap.
  - apply (getTableFromConf_unique "students" [("a", scenarioTable); ("b", zeroTable)]
             _ scenarioTable Hne Hin eq_refl Hd Hu).
    reflexivity.
Defined.

(** ** The environment *)

Section EnvironmentFacts.

Variable environ : gmap string string.

Lemma getEnv_Fine envVar val :
  Process.getEnv environ envVar = Fine val <->
  environ !! envVar = Some val /\ val <> "".
Proof.
  unfold Process.getEnv, Process.Getenv.
  destruct (environ !! envVar) as [v|]; simpl.
  - destruct (decide (v = "")) as [->|Hv]; split.
    + done.
    + intros [[= <-] H]. done.
    + intros [= ->]. done.
    + intros [[= ->] _]. done.
  - split; [done|]. by intros [? _].
Qed.

Lemma getEnv_LogFatal envVar msg :
  Process.getEnv environ envVar = LogFatal msg ->
  environ !! envVar = None \/ environ !! envVar = Some "".
Proof.
  unfold Process.getEnv, Process.Getenv.
  destruct (environ !! envVar) as [v|]; [|by left]. simpl.
  destruct (decide (v = "")) as [->|]; [by right|done].
Qed.

Lemma init_Fine (configs : gmap string string) :
  Process.init environ = Fine configs <->
  (forall name c, configs !! name = Some c <->
     exists var, (name, var) ∈ config_variables /\ environ !! var = Some c) /\
  (forall name var, (name, var) ∈ config_variables ->
     exists c, environ !! var = Some c /\ c <> "").
Proof.
  unfold Process.init. split.
  - intros H.
    destruct (Process.getEnv environ "IL_CONFIG") as [il|] eqn:H1; [|done].
    destruct (Process.getEnv environ "SIS_CONFIG") as [sis|] eqn:H2; [|done].
    destruct (Process.getEnv environ "APP_SIS_CONFIG") as [app|] eqn:H3; [|done].
    destruct (Process.getEnv environ "LEGACY_CONFIG") as [legacy|] eqn:H4; [|done].
    simpl in H. injection H as <-.
    apply getEnv_Fine in H1 as [H1 N1], H2 as [H2 N2], H3 as [H3 N3], H4 as [H4 N4].
    split.
    + intros name c. split.
      * intros Hc.
        destruct (decide (name = "legacy")) as [->|?];
          [rewrite lookup_insert_eq in Hc; simplify_eq; eexists; split;
             [do 3 right; left|done]
          |rewrite lookup_insert_ne in Hc by done].
        destruct (decide (name = "app_sis")) as [->|?];
          [rewrite lookup_insert_eq in Hc; simplify_eq; eexists; split;
             [do 2 right; left|done]
          |rewrite lookup_insert_ne in Hc by done].
        destruct (decide (name = "sis")) as [->|?];
          [rewrite lookup_insert_eq in Hc; simplify_eq; eexists; split;
             [right; left|done]
          |rewrite lookup_insert_ne in Hc by done].
        destruct (decide (name = "il")) as [->|?];
          [rewrite lookup_insert_eq in Hc; simplify_eq; eexists; split;
             [left|done]
          |rewrite lookup_insert_ne in Hc by done].
        done.
      * intros (var & Hin & Hc). unfold config_variables in Hin.
        repeat (apply elem_of_cons in Hin as [[= -> ->]|Hin];
                [by (do 4 (try (rewrite lookup_insert_ne by discriminate));
                     rewrite ?lookup_insert_eq; congruence)|]).
        by apply elem_of_nil in Hin.
    + intros name var Hin. unfold config_variables in Hin.
      repeat (apply elem_of_cons in Hin as [[= -> ->]|Hin]; [by eauto|]).
      by apply elem_of_nil in Hin.
  - intros [Hall Hvars].
    destruct (Hvars "il" "IL_CONFIG") as (il & H1 & N1); [left|].
    destruct (Hvars "sis" "SIS_CONFIG") as (sis & H2 & N2); [right; left|].
    destruct (Hvars "app_sis" "APP_SIS_CONFIG") as (app & H3 & N3); [do 2 right; left|].
    destruct (Hvars "legacy" "LEGACY_CONFIG") as (legacy & H4 & N4); [do 3 right; left|].
    rewrite (proj2 (getEnv_Fine _ _) (conj H1 N1)). simpl.
    rewrite (proj2 (getEnv_Fine _ _) (conj H2 N2)). simpl.
    rewrite (proj2 (getEnv_Fine _ _) (conj H3 N3)). simpl.
    rewrite (proj2 (getEnv_Fine _ _) (conj H4 N4)). simpl.
    f_equal. apply map_eq. intros name.
    destruct (configs !! name) as [c|] eqn:Hc.
    + apply Hall in Hc as (var & Hin & Hc). unfold config_variables in Hin.
      repeat (apply elem_of_cons in Hin as [[= -> ->]|Hin];
              [by (do 4 (try (rewrite lookup_insert_ne by discriminate));
                   rewrite ?lookup_insert_eq; congruence)|]).
      by apply elem_of_nil in Hin.
    + destruct (decide (name = "legacy")) as [->|?].
      { assert (Hx : configs !! "legacy" = Some legacy).
        { apply Hall. eexists. split; [do 3 right; left|done]. } congruence. }
      rewrite lookup_insert_ne by done.
      destruct (decide (name = "app_sis")) as [->|?].
      { assert (Hx : configs !! "app_sis" = Some app).
        { apply Hall. eexists. split; [do 2 right; left|done]. } congruence. }
      rewrite lookup_insert_ne by done.
      destruct (decide (name = "sis")) as [->|?].
      { assert (Hx : configs !! "sis" = Some sis).
        { apply Hall. eexists. split; [right; left|done]. } congruence. }
      rewrite lookup_insert_ne by done.
      destruct (decide (name = "il")) as [->|?].
      { assert (Hx : configs !! "il" = Some il).
        { apply Hall. eexists. split; [left|done]. } congruence. }
      rewrite lookup_insert_ne by done. done.
Qed.

End EnvironmentFacts.

(** X14.  [init] gives [configs] exactly the four keys [il], [sis],
    [app_sis] and [legacy], each with the value of its variable, when the
    four variables are set to texts that are not empty; and it exits exactly
    when one of the four is not set or is set to the empty text. *)
Theorem init_configs (environ : gmap string string) (configs : gmap string string) :
  (Process.init environ = Fine configs <->
   (forall name c, configs !! name = Some c <->
      exists var, (name, var) ∈ config_variables /\ environ !! var = Some c) /\
   (forall name var, (name, var) ∈ config_variables ->
      exists c, environ !! var = Some c /\ c <> "")) /\
  ((exists msg, Process.init environ = LogFatal msg) <->
   (exists name var, (name, var) ∈ config_variables /\
                     (environ !! var = None \/ environ !! var = Some ""))).
Proof.
  split; [apply init_Fine|]. split.
  - intros [msg H]. unfold Process.init in H.
    destruct (Process.getEnv environ "IL_CONFIG") as [il|] eqn:H1.
    2:{ exists "il", "IL_CONFIG". split; [left|]. by eapply getEnv_LogFatal. }
    destruct (Process.getEnv environ "SIS_CONFIG") as [sis|] eqn:H2.
    2:{ exists "sis", "SIS_CONFIG". split; [right; left|]. by eapply getEnv_LogFatal. }
    destruct (Process.getEnv environ "APP_SIS_CONFIG") as [app|] eqn:H3.
    2:{ exists "app_sis", "APP_SIS_CONFIG". split; [do 2 right; left|].
        by eapply getEnv_LogFatal. }
    destruct (Process.getEnv environ "LEGACY_CONFIG") as [legacy|] eqn:H4.
    2:{ exists "legacy", "LEGACY_CONFIG". split; [do 3 right; left|].
        by eapply getEnv_LogFatal. }
    done.
  - intros (name & var & Hin & Hvar).
    destruct (Process.init environ) as [configs'|msg] eqn:Hinit; [|by eexists].
    apply init_Fine in Hinit as [_ Hvars].
    destruct (Hvars name var Hin) as (c & Hc & Hne).
    destruct Hvar; congruence.
Qed.

(** ** The connection and the query *)

Section ConnectionFacts.

Context {A Session : Type}.
Variable ParseURL : string -> error + Mgo.DialInfo A.
Variable DialWithInfo : Mgo.DialInfo A -> error + Session.
Variable SetMode : Session -> Mgo.mode -> bool -> Session.

Lemma mongoConnection_dials url username password parsed :
  ParseURL url = inr parsed ->
  mongoConnection ParseURL DialWithInfo SetMode url username password =
  match DialWithInfo
          {| Mgo.Username :=
               if decide (username = "") then Mgo.Username parsed else username;
             Mgo.Password :=
               if decide (username = "") then Mgo.Password parsed
               else if decide (password = "") then Mgo.Password parsed else password;
             Mgo.DialServer := Mgo.TLSDial;
             Mgo.Others := Mgo.Others parsed |} with
  | inl err => (None, Some err)
  | inr session => (Some (SetMode session Mgo.Monotonic true), None)
  end.
Proof.
  intros Hp. unfold mongoConnection. rewrite Hp.
  destruct (decide (username = "")); [done|].
  destruct (decide (password = "")); done.
Qed.

End ConnectionFacts.

(** X15.  [mongoConnection] returns the error of [mgo.ParseURL] as it is.
    Otherwise it dials once, with TLS, with the other fields of the parsed
    URL unchanged, and with these credentials: those of the URL when no
    username is given, a password given alone being ignored; the username
    given, with the password given or, when that is empty, the password of
    the URL.  The error of the dial is returned as it is, and a session is
    set to the monotonic mode. *)
Theorem mongoConnection_credentials {A Session : Type}
    (ParseURL : string -> error + Mgo.DialInfo A)
    (DialWithInfo : Mgo.DialInfo A -> error + Session)
    (SetMode : Session -> Mgo.mode -> bool -> Session)
    (url username password : string) :
  (forall err, ParseURL url = inl err ->
     mongoConnection ParseURL DialWithInfo SetMode url username password =
       (None, Some err)) /\
  (forall parsed, ParseURL url = inr parsed ->
     exists dialInfo,
       mongoConnection ParseURL DialWithInfo SetMode url username password =
         match DialWithInfo dialInfo with
         | inl err => (None, Some err)
         | inr session => (Some (SetMode session Mgo.Monotonic true), None)
         end /\
       Mgo.DialServer dialInfo = Mgo.TLSDial /\
       Mgo.Others dialInfo = Mgo.Others parsed /\
       (username = "" ->
        Mgo.Username dialInfo = Mgo.Username parsed /\
        Mgo.Password dialInfo = Mgo.Password parsed) /\
       (username <> "" ->
        Mgo.Username dialInfo = username /\
        Mgo.Password dialInfo =
          if decide (password = "") then Mgo.Password parsed else password)).
Proof.
  split.
  - intros err Hp. unfold mongoConnection. by rewrite Hp.
  - intros parsed Hp. eexists. split; [by apply mongoConnection_dials|].
    simpl. split; [done|]. split; [done|]. split.
    + intros ->. done.
    + intros Hne. by destruct (decide (username = "")).
Qed.

Lemma projection_lookup (fields : list Field.t) (k : string) :
  foldl (fun fields f => <[Field.Source f := VInt 1]> fields) (∅ : Row) fields !! k =
  if decide (k ∈ Field.Source <$> fields) then Some (VInt 1) else None.
Proof.
  induction fields as [|f fields IH] using rev_ind.
  - simpl. destruct (decide (k ∈ [])) as [H|_]; [|done]. by apply elem_of_nil in H.
  - rewrite foldl_snoc, fmap_app. simpl.
    destruct (decide (k ∈ (Field.Source <$> fields) ++ [Field.Source f])) as [Hin|Hin].
    + destruct (decide (k = Field.Source f)) as [->|Hne]; [apply lookup_insert_eq|].
      rewrite lookup_insert_ne by done. rewrite IH.
      apply elem_of_app in Hin as [Hin|Hin]; [by rewrite decide_True|].
      apply elem_of_cons in Hin as [?|Hin]; [done|]. by apply elem_of_nil in Hin.
    + rewrite lookup_insert_ne.
      * rewrite IH, decide_False; [done|]. intros H. apply Hin, elem_of_app. by left.
      * intros <-. apply Hin, elem_of_app. right. left.
Qed.

Lemma pii_sources_sources (t : Table.t) k :
  k ∈ pii_sources (Table.Fields t) -> k ∈ sources t.
Proof.
  unfold pii_sources, sources. intros (f & -> & Hf)%list_elem_of_fmap.
  apply list_elem_of_filter in Hf as [_ Hf]. apply list_elem_of_fmap. eauto.
Qed.

Lemma FieldMap_sources (t : Table.t) k :
  is_Some (FieldMap t !! k) -> k ∈ sources t.
Proof.
  rewrite FieldMap_lookup. unfold destinations, sources.
  destruct (Field.Destination <$> _) as [|d ds] eqn:Hd; [by intros [? ?]|]. intros _.
  assert (Hin : d ∈ Field.Destination <$>
            filter (fun f => Field.Source f = k /\ Field.Destination f <> "")
                   (Table.Fields t)) by (rewrite Hd; left).
  apply list_elem_of_fmap in Hin as (f & _ & Hf).
  apply list_elem_of_filter in Hf as [[<- _] Hf]. apply list_elem_of_fmap. eauto.
Qed.

(** X16.  [configuredOptimusTable] reads the collection named by the
    source of the table.  Without the projection optimization the
    projection is empty; with it, the projection holds the source path of
    every column, each with the value 1, and nothing else, so every path the
    field map or the existential transformer reads is asked for. *)
Theorem configuredOptimusTable_projection {Session OptimusTable : Type}
    (Find : Session -> string -> gmap string value -> OptimusTable)
    (s : Session) (table : Table.t) :
  exists fields,
    configuredOptimusTable Find s table = Find s (Table.Source table) fields /\
    (Meta.UseProjectionOptimization (Table.Meta table) = false -> fields = ∅) /\
    (Meta.UseProjectionOptimization (Table.Meta table) = true ->
     (forall k, fields !! k = if decide (k ∈ sources table) then Some (VInt 1) else None) /\
     (forall k, is_Some (FieldMap table !! k) -> is_Some (fields !! k)) /\
     (forall k, k ∈ pii_sources (Table.Fields table) -> is_Some (fields !! k))).
Proof.
  unfold configuredOptimusTable.
  destruct (Meta.UseProjectionOptimization (Table.Meta table)).
  - eexists. split; [done|]. split; [done|]. intros _.
    assert (H : forall k,
      foldl (fun fields f => <[Field.Source f := VInt 1]> fields) (∅ : Row)
            (Table.Fields table) !! k =
      if decide (k ∈ sources table) then Some (VInt 1) else None)
      by (intros k; apply projection_lookup).
    split; [done|]. split.
    + intros k Hk%FieldMap_sources. rewrite H, decide_True by done. eauto.
    + intros k Hk%pii_sources_sources. rewrite H, decide_True by done. eauto.
  - exists ∅. split; [done|]. split; [done|]. done.
Qed.

(** ** main, up to the fan-out *)

Section StartupFacts.

Variable ParseRFC3339 : string -> Time.t * option error.
Variable ParseYAML : string -> Config * option error.
Variable Write : string -> string -> option error.
Variable configs : gmap string string.

Lemma startup_Fine flags workerErr timestamp connErr p :
  startup ParseRFC3339 ParseYAML Write configs flags workerErr timestamp connErr = Fine p ->
  workerErr = None /\
  Strconv.Atoi (Flags.NumFiles flags) = (Started.numFiles p, None) /\
  1 <= Started.numFiles p /\
  (exists c configYaml,
     configs !! Flags.Name flags = Some c /\
     ParseYAML c = (configYaml, None) /\
     copyConfigFile ParseRFC3339 Write (Flags.Bucket flags) timestamp c
       (Flags.Name flags) = Fine (Started.confFileName p) /\
     getTableFromConf (Flags.Collection flags) configYaml =
       (Started.sourceTable p, None)) /\
  Started.outputTableName p = Table.Destination (Started.sourceTable p) /\
  connErr <> None.
Proof.
  unfold startup. destruct workerErr as [e|]; [done|].
  destruct (Strconv.Atoi _) as [n [e|]] eqn:Hn; [done|].
  destruct (decide (n < 1)) as [Hlt|Hge]; [done|].
  destruct (configs !! Flags.Name flags) as [c|] eqn:Hc; [|done].
  unfold parseConfigString.
  destruct (ParseYAML c) as [configYaml [e|]] eqn:Hy; [done|]. simpl.
  destruct (copyConfigFile _ _ _ _ _ _) as [name|] eqn:Hcopy; [|done]. simpl.
  destruct (getTableFromConf _ _) as [t [e|]] eqn:Ht; [done|].
  destruct connErr as [e|]; [|done]. intros [= <-]. simpl.
  split; [done|]. split; [done|]. split; [lia|].
  split; [by exists c, configYaml|]. done.
Qed.

End StartupFacts.

(** X17.  [main] reaches the counters and the fan-out only when the
    worker returned no error, the flag [numfiles] is the decimal text of an
    integer that is at least 1, the flag [config] is a key of [configs], that
    configuration parses, its copy has been written, and the flag
    [collection] is the source of a table with a destination; and only when
    [mongoConnection] has returned an error: the test of that error is
    inverted, and without an error [main] exits with
    [Could not connect to mongo]. *)
Theorem startup_proceeds (ParseRFC3339 : string -> Time.t * option error)
    (ParseYAML : string -> Config * option error)
    (Write : string -> string -> option error)
    (configs : gmap string string)
    (flags : Flags.t) (workerErr : option error) (timestamp : string)
    (connErr : option error) (p : Started.t) :
  startup ParseRFC3339 ParseYAML Write configs flags workerErr timestamp connErr = Fine p ->
  workerErr = None /\
  Strconv.Atoi (Flags.NumFiles flags) = (Started.numFiles p, None) /\
  1 <= Started.numFiles p /\
  (exists c configYaml,
     configs !! Flags.Name flags = Some c /\
     ParseYAML c = (configYaml, None) /\
     copyConfigFile ParseRFC3339 Write (Flags.Bucket flags) timestamp c
       (Flags.Name flags) = Fine (Started.confFileName p) /\
     getTableFromConf (Flags.Collection flags) configYaml =
       (Started.sourceTable p, None)) /\
  Table.Source (Started.sourceTable p) = Flags.Collection flags /\
  Table.Destination (Started.sourceTable p) <> "" /\
  Started.outputTableName p = Table.Destination (Started.sourceTable p) /\
  connErr <> None /\
  startup ParseRFC3339 ParseYAML Write configs flags workerErr timestamp None =
    LogFatal "Could not connect to mongo".
Proof.
  intros Hp.
  pose proof (startup_Fine _ _ _ _ _ _ _ _ _ Hp)
    as (Hw & Hn & Hge & (c & configYaml & Hc & Hy & Hcopy & Ht) & Hout & Hconn).
  destruct (getTableFromConf_found _ _ _ Ht) as (_ & _ & Hs & Hd).
  split; [done|]. split; [done|]. split; [done|].
  split; [by exists c, configYaml|].
  split; [done|]. split; [done|]. split; [done|]. split; [done|].
  unfold startup. rewrite Hw, Hn. rewrite decide_False by lia.
  rewrite Hc. unfold parseConfigString. rewrite Hy. simpl. rewrite Hcopy. simpl.
  by rewrite Ht.
Qed.

(** The flags [config=il], [collection=students], [numfiles=2]: [main]
    goes on after a connection that failed, and exits after one that
    succeeded. *)
Lemma startup_proceeds_witness :
  exists p,
    startup Time.ParseRFC3339 scenarioYAML (fun _ _ => None) scenarioConfigs
      scenarioFlags None scenarioTimestamp (Some "no reachable servers") = Fine p /\
    Started.numFiles p = 2 /\
    Started.sourceTable p = scenarioTable /\
    startup Time.ParseRFC3339 scenarioYAML (fun _ _ => None) scenarioConfigs
      scenarioFlags None scenarioTimestamp None =
      LogFatal "Could not connect to mongo".
Proof.
  assert (H : exists p,
    startup Time.ParseRFC3339 scenarioYAML (fun _ _ => None) scenarioConfigs
      scenarioFlags None scenarioTimestamp (Some "no reachable servers") = Fine p).
  { eexists. vm_compute. reflexivity. }
  destruct H as [p Hp]. exists p. split; [exact Hp|].
  destruct (startup_proceeds _ _ _ _ _ _ _ _ _ Hp)
    as (_ & Hn & _ & (c & configYaml & Hc & Hy & _ & Ht) & _ & _ & _ & _ & Hfatal).
  split; [|split].
  - assert (Ha : Strconv.Atoi (Flags.NumFiles scenarioFlags) = (2, None))
      by (vm_compute; reflexivity).
    rewrite Ha in Hn. injection Hn as Hn. symmetry. exact Hn.
  - unfold scenarioYAML in Hy. injection Hy as <-.
    assert (Hg : getTableFromConf (Flags.Collection scenarioFlags)
                   [("students", scenarioTable)] = (scenarioTable, None))
      by reflexivity.
    rewrite Hg in Ht. injection Ht as Ht. symmetry. exact Ht.
  - exact Hfatal.
Defined.

(** ** [main] and its goroutines, as they are written *)

Lemma mongoConnection_result {A Session : Type}
    (ParseURL : string -> error + Mgo.DialInfo A)
    (DialWithInfo : Mgo.DialInfo A -> error + Session)
    (SetMode : Session -> Mgo.mode -> bool -> Session)
    (url username password : string) :
  (exists e, mongoConnection ParseURL DialWithInfo SetMode url username password =
               (None, Some e)) \/
  (exists s, mongoConnection ParseURL DialWithInfo SetMode url username password =
               (Some s, None)).
Proof.
  destruct (ParseURL url) as [e|parsed] eqn:Hp.
  - left. exists e. unfold mongoConnection. by rewrite Hp.
  - rewrite (mongoConnection_dials _ _ _ _ _ _ _ Hp).
    destruct (DialWithInfo _) as [e|s]; eauto.
Qed.

(** X18.  [main] never starts an export.  When it does not exit before,
    [mongoConnection] has returned an error and no session (the test of that
    error is inverted), and the call of [configuredOptimusTable] on the nil
    session panics before any goroutine is spawned.  Were the loop reached
    with the [err] that [main] then holds, every export goroutine would exit
    at its test of [err], before it calls [exportData]. *)
Theorem main_starts_no_export {A Session OptimusTable : Type}
    (ParseRFC3339 : string -> Time.t * option error)
    (ParseYAML : string -> Config * option error)
    (Write : string -> string -> option error)
    (configs : gmap string string)
    (ParseURL : string -> error + Mgo.DialInfo A)
    (DialWithInfo : Mgo.DialInfo A -> error + Session)
    (SetMode : Session -> Mgo.mode -> bool -> Session)
    (Find : Session -> string -> gmap string value -> OptimusTable)
    (Rows : OptimusTable -> list entries)
    (flags : Flags.t) (workerErr : option error) (timestamp : string)
    (url username password : string) :
  (forall r,
     main ParseRFC3339 ParseYAML Write configs ParseURL DialWithInfo SetMode Find Rows
       flags workerErr timestamp url username password = Fine r ->
     exists e msg,
       mongoConnection ParseURL DialWithInfo SetMode url username password =
         (None, Some e) /\
       r = Panics msg) /\
  (forall Marshal formatFloat bucket sourceTable e s i sh,
     st s = Running -> shards s !! i = Some sh -> exporter sh = Exporting ->
     forall a, (exists x, a = Claim i x) \/ (exists x, a = ExportReturn i x) ->
     step Marshal ParseRFC3339 formatFloat bucket sourceTable timestamp (Some e) a s =
       Some (with_status s (Fatal "invalid compression level"))).
Proof.
  split.
  - intros r. unfold main.
    destruct (mongoConnection_result ParseURL DialWithInfo SetMode url username password)
      as [[e He]|[s Hs]].
    + rewrite He.
      destruct (startup _ _ _ _ _ _ _ _) as [p|msg]; [|done].
      intros [= <-]. exists e. eexists. split; reflexivity.
    + rewrite Hs.
      destruct (startup _ _ _ _ _ _ _ _) as [p|msg] eqn:Hp; [|done].
      apply startup_Fine in Hp as (_ & _ & _ & _ & _ & Hconn). done.
  - intros Marshal formatFloat bucket sourceTable e s i sh Hrun Hi Hex a
      [[x ->]|[x ->]]; unfold step; by rewrite Hrun, Hi, Hex.
Qed.
